(** * LinkedIn Job Insights: the in-page content script

    The repository ships one content script twice, as a string literal of
    two installer programs:

    - [src/installer_script.py], [get_content_script]   (module [Installer])
    - [src/exe_installer_script.py], [get_extension_files], ['content.js']
                                                         (module [ExeInstaller])

    Both define the class [LinkedInJobInsights].  This file embeds the two
    classes method by method and states the properties of the specification
    over them.

    Conventions of the embedding.
    - A JavaScript value is a [value]; objects and arrays carry the address
      they were allocated at, since [Map] compares object keys by identity.
    - JSON numbers are represented by their integer value (the payload
      carries counts and millisecond timestamps).
    - A statement that may raise returns a [result]; a method with side
      effects passes the instance state explicitly.
    - [setTimeout] callbacks are kept in the state as pending [timer]s; the
      host decides when one of them runs.
    - Promises are kept in the state while they are pending: the calls of
      [fetch] that await the network, and the decodings
      [clonedResponse.json()] that the wrappers have started.  The host
      decides when the network answers a call and when a decoding settles;
      [destroy()] cancels neither. *)

From Stdlib Require Import ZArith Ascii String List Lia Bool.
From stdpp Require Import base option list strings countable gmap fin_maps.

Open Scope string_scope.
Set Warnings "-register-all".

(** ** JavaScript values *)

Module JS.

Definition addr := N.

Inductive value : Type :=
| VUndef
| VNull
| VBool (b : bool)
| VNum (n : Z)
| VStr (s : string)
| VArr (a : addr) (xs : list value)
| VObj (a : addr) (fs : list (string * value)).

Inductive exn : Type :=
| TypeError.

Inductive result (A : Type) : Type :=
| Ok (x : A)
| Throw (e : exn).
Arguments Ok {A} x.
Arguments Throw {A} e.

#[global] Instance result_ret : MRet result := @Ok.

#[global] Instance result_bind : MBind result := fun A B k m =>
  match m with
  | Ok x => k x
  | Throw e => Throw e
  end.

(** [ToBoolean]. *)
Definition truthy (v : value) : bool :=
  match v with
  | VUndef | VNull => false
  | VBool b => b
  | VNum n => negb (n =? 0)%Z
  | VStr s => negb (String.eqb s "")
  | VArr _ _ | VObj _ _ => true
  end.

(** [a || b] on already evaluated operands. *)
Definition or_else (a b : value) : value := if truthy a then a else b.

(** First binding of [name] among the own properties of an object. *)
Fixpoint assoc (name : string) (fs : list (string * value)) : option value :=
  match fs with
  | [] => None
  | (k, v) :: fs' => if String.eqb k name then Some v else assoc name fs'
  end.

(** [v.name] for the property names the script reads ([elements], [data],
    [jobPostingId], [entityUrn], [listedAt], ...): reading a property of
    [null] or [undefined] raises; a string, number, boolean or array has
    none of these properties; an object yields its own property. *)
Definition get (v : value) (name : string) : result value :=
  match v with
  | VUndef | VNull => Throw TypeError
  | VObj _ fs => Ok (default VUndef (assoc name fs))
  | _ => Ok VUndef
  end.

(** [v?.name]. *)
Definition get_opt (v : value) (name : string) : value :=
  match v with
  | VObj _ fs => default VUndef (assoc name fs)
  | _ => VUndef
  end.

Definition isArray (v : value) : bool :=
  match v with
  | VArr _ _ => true
  | _ => false
  end.

(** Keys of a [Map] under SameValueZero: primitives by value, objects and
    arrays by address. *)
Inductive key : Type :=
| KUndef
| KNull
| KBool (b : bool)
| KNum (n : Z)
| KStr (s : string)
| KRef (a : addr).

Definition to_key (v : value) : key :=
  match v with
  | VUndef => KUndef
  | VNull => KNull
  | VBool b => KBool b
  | VNum n => KNum n
  | VStr s => KStr s
  | VArr a _ | VObj a _ => KRef a
  end.

#[global] Instance key_eq_dec : EqDecision key.
Proof. solve_decision. Defined.

Definition key_enc (k : key) : unit + unit + bool + Z + string + N :=
  match k with
  | KUndef => inl (inl (inl (inl (inl ()))))
  | KNull => inl (inl (inl (inl (inr ()))))
  | KBool b => inl (inl (inl (inr b)))
  | KNum n => inl (inl (inr n))
  | KStr s => inl (inr s)
  | KRef a => inr a
  end.

Definition key_dec (x : unit + unit + bool + Z + string + N) : key :=
  match x with
  | inl (inl (inl (inl (inl _)))) => KUndef
  | inl (inl (inl (inl (inr _)))) => KNull
  | inl (inl (inl (inr b))) => KBool b
  | inl (inl (inr n)) => KNum n
  | inl (inr s) => KStr s
  | inr a => KRef a
  end.

#[global] Instance key_countable : Countable key.
Proof.
  refine (inj_countable' key_enc key_dec _).
  intros []; reflexivity.
Defined.

End JS.

(** ** Regular expressions of the identifier rules *)

Module Regex.

(** The rules only use literal characters, one character class and the
    capture group [(\d+)]. *)
Inductive atom : Type :=
| Chr (c : ascii)
| OneOf (cs : list ascii)
| Digits1.

Definition regex := list atom.

(** [\d] without the unicode flag: [0-9]. *)
Definition isDigit (c : ascii) : bool :=
  (48 <=? nat_of_ascii c)%nat && (nat_of_ascii c <=? 57)%nat.

Definition accepts (cs : list ascii) (c : ascii) : bool :=
  existsb (Ascii.eqb c) cs.

(** Match [r] at the start of [s]; the result lists the captured groups.
    [(\d+)] is greedy: it takes as many digits as it can and gives one back
    at a time while the rest of the rule fails. *)
Fixpoint match_here (r : regex) (s : list ascii) {struct r}
  : option (list (list ascii)) :=
  match r with
  | [] => Some []
  | Chr c :: r' =>
      match s with
      | d :: s' => if Ascii.eqb c d then match_here r' s' else None
      | [] => None
      end
  | OneOf cs :: r' =>
      match s with
      | d :: s' => if accepts cs d then match_here r' s' else None
      | [] => None
      end
  | Digits1 :: r' =>
      (fix digits (s : list ascii) : option (list (list ascii)) :=
         match s with
         | d :: s' =>
             if isDigit d then
               match digits s' with
               | Some (cap :: caps) => Some ((d :: cap) :: caps)
               | _ =>
                   match match_here r' s' with
                   | Some caps => Some ([d] :: caps)
                   | None => None
                   end
               end
             else None
         | [] => None
         end) s
  end.

(** [String.prototype.match] with a non-global regex: the leftmost match. *)
Fixpoint search (r : regex) (s : list ascii) : option (list (list ascii)) :=
  match match_here r s with
  | Some caps => Some caps
  | None =>
      match s with
      | _ :: s' => search r s'
      | [] => None
      end
  end.

Definition lit (s : string) : regex := map Chr (list_ascii_of_string s).

(** [for (const pattern of patterns) { const match = url.match(pattern);
    if (match) return match[1]; } return null;] *)
Fixpoint firstCapture (patterns : list regex) (url : string) : option string :=
  match patterns with
  | [] => None
  | pattern :: rest =>
      match search pattern (list_ascii_of_string url) with
      | Some caps => string_of_list_ascii <$> head caps
      | None => firstCapture rest url
      end
  end.

Definition dq : ascii := ascii_of_nat 34.

(** [/\/jobs\/view\/(\d+)/] *)
Definition rule_view : regex := (lit "/jobs/view/" ++ [Digits1])%list.
(** [/currentJobId=(\d+)/] *)
Definition rule_current : regex := (lit "currentJobId=" ++ [Digits1])%list.
(** [/jobPostingId[=:](\d+)/] *)
Definition rule_posting : regex :=
  (lit "jobPostingId" ++ [OneOf ["="%char; ":"%char]; Digits1])%list.
(** [/"jobPostingId":"(\d+)"/] *)
Definition rule_field : regex :=
  ([Chr dq] ++ lit "jobPostingId" ++
   [Chr dq; Chr ":"%char; Chr dq; Digits1; Chr dq])%list.

End Regex.

(** ** The page around the script *)

Module Dom.
Import JS.

(** An overlay panel: a [div] of class [linkedin-job-insights-tooltip].
    [el_id] is the identity of the element, [el_rows] the label and the
    interpolated value of each [insight-row] of its markup in document
    order, [el_style] the [left] and [top] the script assigned in pixels
    ([None]: the stylesheet's [position: fixed; top: 20px; right: 20px]). *)
Record element : Type := {
  el_id : nat;
  el_rows : list (string * value);
  el_style : option (Z * Z)
}.

(** [getBoundingClientRect()] of the layout anchor. *)
Record rect : Type := { r_top : Z; r_right : Z }.

(** What the host page lays out: the element selected by
    ['.jobs-details, .job-view-layout, .jobs-search__job-details'] if any,
    the [offsetWidth] of an attached panel and [window.innerWidth]. *)
Record viewport : Type := {
  anchor : option rect;
  offsetWidth : Z;
  innerWidth : Z
}.

(** The element a click resolved to with [closest(...)]:
    its [data-job-id] and [data-occludable-job-id] attributes, its [href]
    property ([None] on an element that is not an anchor) and the [href]
    of its first descendant [a[href*="/jobs/view/"]]. *)
Record card : Type := {
  attr_job_id : option string;
  attr_occludable : option string;
  card_href : option string;
  card_link : option string
}.

(** A [Response] as [fetch] resolves it, with its body still unread.
    Every [clone().json()] reads the body again and builds its objects
    anew: [resp_json k] is what the decoding started after [k] earlier ones
    settles to ([None]: it rejects), with the addresses of the objects that
    decoding allocates.  [resp_tag] stands for everything else the caller
    can observe. *)
Record response : Type := {
  resp_ok : bool;
  resp_json : nat -> option value;
  resp_tag : nat
}.

(** The settled promise a call of [fetch] returns. *)
Inductive outcome : Type :=
| Resolved (r : response)
| Rejected (reason : value).

(** [promise.then(f)] for a callback that returns a response. *)
Definition and_then {S : Type} (o : outcome) (f : response -> S -> response * S)
    (s : S) : outcome * S :=
  match o with
  | Resolved r => let '(r', s') := f r s in (Resolved r', s')
  | Rejected e => (Rejected e, s)
  end.

(** [hay.includes(needle)]. *)
Fixpoint includes (needle hay : string) : bool :=
  String.prefix needle hay ||
  match hay with
  | String _ hay' => includes needle hay'
  | EmptyString => false
  end.

(** A null-or-string attribute as a value. *)
Definition of_attr (a : option string) : value :=
  match a with
  | Some s => VStr s
  | None => VNull
  end.

(** [a || b] for [a] a string or [undefined] and [b] a string. *)
Definition str_or (a : option string) (b : string) : string :=
  match a with
  | Some s => if String.eqb s "" then b else s
  | None => b
  end.

(** [xs.forEach(f)] for a callback that updates [S] and may raise. *)
Fixpoint forEach {S : Type} (f : value -> S -> S * result unit)
    (xs : list value) (s : S) : S * result unit :=
  match xs with
  | [] => (s, Ok ())
  | x :: xs' =>
      match f x s with
      | (s', Ok _) => forEach f xs' s'
      | (s', Throw e) => (s', Throw e)
      end
  end.

(** [el.remove()] on the attached panels. *)
Definition detach (id : nat) (els : list element) : list element :=
  filter (fun e => el_id e ≠ id) els.

(** A list of pending callbacks without its [i]-th entry. *)
Definition drop_nth {A : Type} (i : nat) (xs : list A) : list A :=
  take i xs ++ drop (S i) xs.

End Dom.

Import JS Regex Dom.

(** ** [src/installer_script.py]: the content script of the zip installer *)

Module Installer.

(** The object stored in [jobData] for a job. *)
Record jobInfo : Type := {
  id : value;
  listedAt : string;
  expireAt : string;
  originalListedAt : string;
  views : value;
  applies : value;
  title : value;
  company : value
}.

(** A pending [setTimeout] callback:
    [() => self.showJobInsights(jobCard)] of the click listener,
    the navigation callback closed over [url], and the auto-dismiss
    callback closed over [tooltip]. *)
Inductive timer : Type :=
| TShowCard (jobCard : card)
| TShowUrl (url : string)
| TDismiss (tooltip : nat).

(** The instance [jobInsights] together with the page state it touches. *)
Record state : Type := {
  jobData : gmap key jobInfo;
  isInitialized : bool;
  observer : option bool;        (* [this.observer]; [Some c]: connected iff [c] *)
  currentTooltip : option nat;
  overlays : list element;       (* attached panels, all elements of the class *)
  nextId : nat;                  (* identity of the next created element *)
  timers : list timer;
  fetchWrappers : nat;           (* wrappers around the native [window.fetch] *)
  clickListeners : nat;          (* click listeners on [document] *)
  navObservers : list string;    (* [lastUrl] of each navigation observer *)
  calls : list (list value * nat);
                                 (* calls of [fetch] that await the network: the
                                    arguments, and the wrappers gone through *)
  decoding : list (option value);
                                 (* [clonedResponse.json()] in flight, with what
                                    each settles to *)
  location : string;             (* [location.href] *)
  view : viewport
}.

Definition set_jobData (m : gmap key jobInfo) (s : state) : state :=
  {| jobData := m; isInitialized := isInitialized s; observer := observer s;
     currentTooltip := currentTooltip s; overlays := overlays s;
     nextId := nextId s; timers := timers s; fetchWrappers := fetchWrappers s;
     clickListeners := clickListeners s; navObservers := navObservers s;
     calls := calls s; decoding := decoding s;
     location := location s; view := view s |}.

Definition set_isInitialized (b : bool) (s : state) : state :=
  {| jobData := jobData s; isInitialized := b; observer := observer s;
     currentTooltip := currentTooltip s; overlays := overlays s;
     nextId := nextId s; timers := timers s; fetchWrappers := fetchWrappers s;
     clickListeners := clickListeners s; navObservers := navObservers s;
     calls := calls s; decoding := decoding s;
     location := location s; view := view s |}.

Definition set_observer (o : option bool) (s : state) : state :=
  {| jobData := jobData s; isInitialized := isInitialized s; observer := o;
     currentTooltip := currentTooltip s; overlays := overlays s;
     nextId := nextId s; timers := timers s; fetchWrappers := fetchWrappers s;
     clickListeners := clickListeners s; navObservers := navObservers s;
     calls := calls s; decoding := decoding s;
     location := location s; view := view s |}.

Definition set_tooltip (t : option nat) (els : list element) (s : state) : state :=
  {| jobData := jobData s; isInitialized := isInitialized s; observer := observer s;
     currentTooltip := t; overlays := els;
     nextId := nextId s; timers := timers s; fetchWrappers := fetchWrappers s;
     clickListeners := clickListeners s; navObservers := navObservers s;
     calls := calls s; decoding := decoding s;
     location := location s; view := view s |}.

Definition set_nextId (n : nat) (s : state) : state :=
  {| jobData := jobData s; isInitialized := isInitialized s; observer := observer s;
     currentTooltip := currentTooltip s; overlays := overlays s;
     nextId := n; timers := timers s; fetchWrappers := fetchWrappers s;
     clickListeners := clickListeners s; navObservers := navObservers s;
     calls := calls s; decoding := decoding s;
     location := location s; view := view s |}.

Definition set_timers (ts : list timer) (s : state) : state :=
  {| jobData := jobData s; isInitialized := isInitialized s; observer := observer s;
     currentTooltip := currentTooltip s; overlays := overlays s;
     nextId := nextId s; timers := ts; fetchWrappers := fetchWrappers s;
     clickListeners := clickListeners s; navObservers := navObservers s;
     calls := calls s; decoding := decoding s;
     location := location s; view := view s |}.

Definition set_listeners (w c : nat) (n : list string) (s : state) : state :=
  {| jobData := jobData s; isInitialized := isInitialized s; observer := observer s;
     currentTooltip := currentTooltip s; overlays := overlays s;
     nextId := nextId s; timers := timers s; fetchWrappers := w;
     clickListeners := c; navObservers := n;
     calls := calls s; decoding := decoding s;
     location := location s; view := view s |}.

Definition set_host (href : string) (v : viewport) (s : state) : state :=
  {| jobData := jobData s; isInitialized := isInitialized s; observer := observer s;
     currentTooltip := currentTooltip s; overlays := overlays s;
     nextId := nextId s; timers := timers s; fetchWrappers := fetchWrappers s;
     clickListeners := clickListeners s; navObservers := navObservers s;
     calls := calls s; decoding := decoding s;
     location := href; view := v |}.

Definition set_calls (cs : list (list value * nat)) (s : state) : state :=
  {| jobData := jobData s; isInitialized := isInitialized s; observer := observer s;
     currentTooltip := currentTooltip s; overlays := overlays s;
     nextId := nextId s; timers := timers s; fetchWrappers := fetchWrappers s;
     clickListeners := clickListeners s; navObservers := navObservers s;
     calls := cs; decoding := decoding s;
     location := location s; view := view s |}.

Definition set_decoding (ds : list (option value)) (s : state) : state :=
  {| jobData := jobData s; isInitialized := isInitialized s; observer := observer s;
     currentTooltip := currentTooltip s; overlays := overlays s;
     nextId := nextId s; timers := timers s; fetchWrappers := fetchWrappers s;
     clickListeners := clickListeners s; navObservers := navObservers s;
     calls := calls s; decoding := ds;
     location := location s; view := view s |}.

(** [constructor()], on a page at [href] laid out as [v]. *)
Definition new (href : string) (v : viewport) : state :=
  {| jobData := ∅; isInitialized := false; observer := None;
     currentTooltip := None; overlays := []; nextId := 0; timers := [];
     fetchWrappers := 0; clickListeners := 0; navObservers := [];
     calls := []; decoding := [];
     location := href; view := v |}.

Section Script.

(** [new Date(parseInt(t)).toLocaleDateString() + ' ' +
    ...toLocaleTimeString([], {hour: '2-digit', minute: '2-digit'})]:
    the locale's rendering, which the host supplies. *)
Variable formatDate : value -> string.

Definition convertTimestamp (timestamp : value) : string :=
  if negb (truthy timestamp) then "N/A" else formatDate timestamp.

Definition patterns : list regex :=
  [rule_view; rule_current; rule_posting; rule_field].

Definition extractJobId (url : string) : option string :=
  firstCapture patterns url.

(** [this.extractJobId(v)] on an arbitrary value: [v.match] is a function
    only when [v] is a string. *)
Definition extractJobId_of (v : value) : result value :=
  match v with
  | VStr url => Ok (of_attr (extractJobId url))
  | _ => Throw TypeError
  end.

(** The object literal passed to [this.jobData.set]; [job] is not [null]
    there, its [jobPostingId] has been read. *)
Definition mkJobInfo (jobId job : value) : jobInfo :=
  {| id := jobId;
     listedAt := convertTimestamp (get_opt job "listedAt");
     expireAt := convertTimestamp (get_opt job "expireAt");
     originalListedAt := convertTimestamp (get_opt job "originalListedAt");
     views := or_else (get_opt job "views") (VStr "N/A");
     applies := or_else (get_opt job "applies") (VStr "N/A");
     title := or_else (get_opt job "title") (VStr "Unknown");
     company :=
       or_else
         (get_opt (get_opt (get_opt job "companyDetails")
                     "companyResolutionResult") "name")
         (VStr "Unknown") |}.

(** The callback of [jobs.forEach]. *)
Definition storeJob (job : value) (m : gmap key jobInfo)
  : gmap key jobInfo * result unit :=
  match get job "jobPostingId" with
  | Throw e => (m, Throw e)
  | Ok posting =>
      let urn := get_opt job "entityUrn" in
      if truthy (or_else posting urn) then
        match (if truthy posting then Ok posting else extractJobId_of urn) with
        | Throw e => (m, Throw e)
        | Ok jobId =>
            if truthy jobId
            then (<[to_key jobId := mkJobInfo jobId job]> m, Ok ())
            else (m, Ok ())
        end
      else (m, Ok ())
  end.

(** The [if ... else if ...] chain that selects [jobs]; the address given
    to an array literal is immaterial, [jobs] is only iterated. *)
Definition selectJobs (data : value) : result value :=
  elements ← get data "elements";
  if truthy elements then Ok elements else
  inner ← get data "data";
  nested ← (if truthy inner then get inner "elements" else Ok inner);
  if truthy nested then get inner "elements" else
  if isArray data then Ok data else
  posting ← get data "jobPostingId";
  if truthy posting then Ok (VArr 0%N [data]) else Ok (VArr 0%N []).

(** The body of the [try] block. *)
Definition processJobData_try (data : value) (m : gmap key jobInfo)
  : gmap key jobInfo * result unit :=
  match selectJobs data with
  | Throw e => (m, Throw e)
  | Ok (VArr _ jobs) => forEach storeJob jobs m
  | Ok _ => (m, Throw TypeError)
  end.

(** [processJobData(data, url)]: the [catch] clause only logs. *)
Definition processJobData (data : value) (s : state) : state :=
  set_jobData (fst (processJobData_try data (jobData s))) s.

(** The chain [clonedResponse.json().then(data => { self.processJobData(data,
    url); }).catch(err => console.log(...))], once the decoding has settled
    to [d]. *)
Definition onDecoded (d : option value) (s : state) : state :=
  match d with
  | Some data => processJobData data s   (* [.then(data => ...)] *)
  | None => s                            (* [.catch(err => ...)] *)
  end.

(** The continuation [response => { ...; return response; }] of the wrapper
    that has [k] wrappers between it and the native primitive.  It starts
    the decoding of a clone and returns at once: the decoding is not
    awaited.  The continuations of the [k] wrappers below ran before this
    one, each on the same response, so this decoding is the one started
    after [k] earlier ones. *)
Definition onResponse (k : nat) (resp : response) (s : state) : response * state :=
  if resp_ok resp
  then (resp, set_decoding (decoding s ++ [resp_json resp k]) s)
  else (resp, s).

Definition endpoint : string := "voyager/api/jobs/jobPostings".

(** The function [interceptNetworkRequests] assigns to [window.fetch],
    around the [originalFetch] it captured, which is [window.fetch] with the
    [k] wrappers installed before. *)
Definition wrapper {W : Type} (k : nat)
    (originalFetch : list value -> W * state -> outcome * (W * state))
    (args : list value) (ws : W * state) : outcome * (W * state) :=
  match default VUndef (head args) with
  | VStr url =>
      if includes endpoint url then
        let '(o, (w, s)) := originalFetch args ws in
        let '(o', s') := and_then o (onResponse k) s in
        (o', (w, s'))
      else originalFetch args ws
  | _ => originalFetch args ws
  end.

(** [window.fetch] when [n] wrappers are installed over the host's
    primitive [native], which acts on the host's own world [W]: what the
    call has done when the promise it returns settles. *)
Fixpoint windowFetch {W : Type} (native : list value -> W -> outcome * W)
    (n : nat) : list value -> W * state -> outcome * (W * state) :=
  match n with
  | O => fun args '(w, s) => let '(o, w') := native args w in (o, (w', s))
  | S n' => wrapper n' (windowFetch native n')
  end.

(** The [j]-th decoding in flight settles. *)
Definition decoded (j : nat) (s : state) : state :=
  match decoding s !! j with
  | Some d => onDecoded d (set_decoding (drop_nth j (decoding s)) s)
  | None => s
  end.

(** The decodings in flight from the [j]-th on settle, in the order in
    which they were started. *)
Definition settle (j : nat) (s : state) : state :=
  Nat.iter (length (decoding s) - j) (decoded j) s.

(** A call of [window.fetch(...args)] by the page that nothing else on the
    page interleaves with: the native primitive settles, then the decodings
    the wrappers have started on its response. *)
Definition callFetch {W : Type} (native : list value -> W -> outcome * W)
    (args : list value) (ws : W * state) : outcome * (W * state) :=
  let '(o, (w, s)) := windowFetch native (fetchWrappers (snd ws)) args ws in
  (o, (w, settle (length (decoding (snd ws))) s)).

Definition interceptNetworkRequests (s : state) : state :=
  set_listeners (S (fetchWrappers s)) (clickListeners s) (navObservers s) s.

(** One click listener, and one navigation observer whose [lastUrl] starts
    at the current location. *)
Definition setupJobClickHandlers (s : state) : state :=
  set_listeners (fetchWrappers s) (S (clickListeners s))
    (location s :: navObservers s) s.

Definition observePageChanges (s : state) : state :=
  set_observer (Some true) s.

Definition init (s : state) : state :=
  if isInitialized s then s
  else
    set_isInitialized true
      (observePageChanges (setupJobClickHandlers (interceptNetworkRequests s))).

Definition removeExistingTooltip (s : state) : state :=
  let els :=
    match currentTooltip s with
    | Some t => detach t (overlays s)
    | None => overlays s
    end in
  (* document.querySelectorAll('.linkedin-job-insights-tooltip')
       .forEach(el => el.remove()) *)
  let els' := foldr (fun el acc => detach (el_id el) acc) els els in
  set_tooltip None els' s.

(** The rows of the panel markup. *)
Definition rows (jobInfo : jobInfo) : list (string * value) :=
  [ ("Listed:", VStr (listedAt jobInfo));
    ("Expires:", VStr (expireAt jobInfo));
    ("Views:", views jobInfo);
    ("Applies:", applies jobInfo) ].

Definition showJobInsightsForId (jobId : string) (s : state)
  : state * result unit :=
  match jobData s !! KStr jobId with
  | None => (s, Ok ())
  | Some jobInfo =>
      let s1 := removeExistingTooltip s in
      let tooltip := nextId s1 in
      let el := {| el_id := tooltip; el_rows := rows jobInfo; el_style := None |} in
      let s2 := set_nextId (S tooltip)
                  (set_tooltip (Some tooltip) (overlays s1 ++ [el]) s1) in
      match anchor (view s2) with
      | None => (s2, Throw TypeError)
      | Some rect =>
          let w := offsetWidth (view s2) in
          let left := Z.min (r_right rect - w - 20) (innerWidth (view s2) - w - 20) in
          let top := Z.max (r_top rect + 20) 20 in
          let el' := {| el_id := tooltip; el_rows := rows jobInfo;
                        el_style := Some (left, top) |} in
          let s3 := set_tooltip (Some tooltip) (overlays s1 ++ [el']) s2 in
          (set_timers (timers s3 ++ [TDismiss tooltip]) s3, Ok ())
      end
  end.

Definition showJobInsights (jobCard : card) (s : state) : state * result unit :=
  let jobId :=
    or_else (of_attr (attr_job_id jobCard))
      (or_else (of_attr (attr_occludable jobCard))
         (or_else (of_attr (extractJobId (str_or (card_href jobCard) "")))
            (of_attr (extractJobId (location s))))) in
  let jobId :=
    if negb (truthy jobId) then
      match card_link jobCard with
      | Some href => of_attr (extractJobId href)
      | None => jobId
      end
    else jobId in
  match jobId with
  | VStr jobId => if truthy (VStr jobId) then showJobInsightsForId jobId s else (s, Ok ())
  | _ => (s, Ok ())
  end.

Definition destroy (s : state) : state :=
  let s1 :=
    match observer s with
    | Some _ => set_observer (Some false) s
    | None => s
    end in
  set_isInitialized false (set_jobData ∅ (removeExistingTooltip s1)).

(** The callback of a timer. *)
Definition runTimer (t : timer) (s : state) : state * result unit :=
  match t with
  | TShowCard jobCard => showJobInsights jobCard s
  | TShowUrl url =>
      match extractJobId url with
      | Some jobId => showJobInsightsForId jobId s
      | None => (s, Ok ())
      end
  | TDismiss tooltip =>
      if decide (currentTooltip s = Some tooltip)
      then (removeExistingTooltip s, Ok ())
      else (s, Ok ())
  end.

(** What can happen on the page. *)
Inductive event : Type :=
| EInit                                   (* [jobInsights.init()] *)
| EDestroy                                (* [jobInsights.destroy()] *)
| EFetch (args : list value)              (* the page calls [fetch(...args)] *)
| EAnswer (i : nat) (o : outcome)         (* the native primitive settles the
                                             [i]-th awaiting call to [o] *)
| EDecoded (j : nat)                      (* the [j]-th decoding settles *)
| EClick (jobCard : option card)          (* a click and its [closest(...)] *)
| EClose (tooltip : nat)                  (* a click on the panel's button *)
| ENavigate (href : string)               (* the page changes its location *)
| ELayout (v : viewport)                  (* the page changes its layout *)
| EMutation                               (* the observers are notified *)
| EFire (i : nat).                        (* the [i]-th pending timer runs *)

(** The navigation observers' callback, for each observer. *)
Definition notify (s : state) : state :=
  let url := location s in
  let changed := filter (fun lastUrl => lastUrl ≠ url) (navObservers s) in
  set_timers (timers s ++ map (fun _ => TShowUrl url) changed)
    (set_listeners (fetchWrappers s) (clickListeners s)
       (map (fun _ => url) (navObservers s)) s).

Definition step (e : event) (s : state) : state :=
  match e with
  | EInit => init s
  | EDestroy => destroy s
  | EFetch args => set_calls (calls s ++ [(args, fetchWrappers s)]) s
  | EAnswer i o =>
      match calls s !! i with
      | Some (args, n) =>
          snd (snd (windowFetch (fun _ (w : unit) => (o, w)) n args
                      ((), set_calls (drop_nth i (calls s)) s)))
      | None => s
      end
  | EDecoded j => decoded j s
  | EClick None => s
  | EClick (Some jobCard) =>
      set_timers (timers s ++ replicate (clickListeners s) (TShowCard jobCard)) s
  | EClose tooltip => set_tooltip (currentTooltip s) (detach tooltip (overlays s)) s
  | ENavigate href => set_host href (view s) s
  | ELayout v => set_host (location s) v s
  | EMutation => notify s
  | EFire i =>
      match timers s !! i with
      | Some t => fst (runTimer t (set_timers (drop_nth i (timers s)) s))
      | None => s
      end
  end.

(** The state after the events [es], oldest first. *)
Definition run (es : list event) (s : state) : state :=
  foldl (fun s e => step e s) s es.

End Script.

End Installer.

(** ** [src/exe_installer_script.py]: the content script of the GUI installer *)

Module ExeInstaller.

Record jobInfo : Type := {
  id : value;
  listedAt : string;
  expireAt : string;
  views : value;
  applies : value
}.

(** A pending [setTimeout] callback: [() => self.showJobInsights(jobCard)]
    and [() => this.removeExistingTooltip()]; the latter is labelled with
    the panel [showJobInsights] had just attached when it armed the timer,
    the callback itself does not refer to it. *)
Inductive timer : Type :=
| TShowCard (jobCard : card)
| TDismiss (tooltip : nat).

Record state : Type := {
  jobData : gmap key jobInfo;
  isInitialized : bool;
  currentTooltip : option nat;
  overlays : list element;
  nextId : nat;
  timers : list timer;
  fetchWrappers : nat;
  clickListeners : nat;
  calls : list (list value * nat);   (* calls of [fetch] that await the network *)
  decoding : list (option value);    (* [clonedResponse.json()] in flight *)
  location : string
}.

Definition set_jobData (m : gmap key jobInfo) (s : state) : state :=
  {| jobData := m; isInitialized := isInitialized s;
     currentTooltip := currentTooltip s; overlays := overlays s;
     nextId := nextId s; timers := timers s; fetchWrappers := fetchWrappers s;
     clickListeners := clickListeners s;
     calls := calls s; decoding := decoding s;
     location := location s |}.

Definition set_isInitialized (b : bool) (s : state) : state :=
  {| jobData := jobData s; isInitialized := b;
     currentTooltip := currentTooltip s; overlays := overlays s;
     nextId := nextId s; timers := timers s; fetchWrappers := fetchWrappers s;
     clickListeners := clickListeners s;
     calls := calls s; decoding := decoding s;
     location := location s |}.

Definition set_tooltip (t : option nat) (els : list element) (s : state) : state :=
  {| jobData := jobData s; isInitialized := isInitialized s;
     currentTooltip := t; overlays := els;
     nextId := nextId s; timers := timers s; fetchWrappers := fetchWrappers s;
     clickListeners := clickListeners s;
     calls := calls s; decoding := decoding s;
     location := location s |}.

Definition set_nextId (n : nat) (s : state) : state :=
  {| jobData := jobData s; isInitialized := isInitialized s;
     currentTooltip := currentTooltip s; overlays := overlays s;
     nextId := n; timers := timers s; fetchWrappers := fetchWrappers s;
     clickListeners := clickListeners s;
     calls := calls s; decoding := decoding s;
     location := location s |}.

Definition set_timers (ts : list timer) (s : state) : state :=
  {| jobData := jobData s; isInitialized := isInitialized s;
     currentTooltip := currentTooltip s; overlays := overlays s;
     nextId := nextId s; timers := ts; fetchWrappers := fetchWrappers s;
     clickListeners := clickListeners s;
     calls := calls s; decoding := decoding s;
     location := location s |}.

Definition set_listeners (w c : nat) (s : state) : state :=
  {| jobData := jobData s; isInitialized := isInitialized s;
     currentTooltip := currentTooltip s; overlays := overlays s;
     nextId := nextId s; timers := timers s; fetchWrappers := w;
     clickListeners := c;
     calls := calls s; decoding := decoding s;
     location := location s |}.

Definition set_location (href : string) (s : state) : state :=
  {| jobData := jobData s; isInitialized := isInitialized s;
     currentTooltip := currentTooltip s; overlays := overlays s;
     nextId := nextId s; timers := timers s; fetchWrappers := fetchWrappers s;
     clickListeners := clickListeners s;
     calls := calls s; decoding := decoding s;
     location := href |}.

Definition set_calls (cs : list (list value * nat)) (s : state) : state :=
  {| jobData := jobData s; isInitialized := isInitialized s;
     currentTooltip := currentTooltip s; overlays := overlays s;
     nextId := nextId s; timers := timers s; fetchWrappers := fetchWrappers s;
     clickListeners := clickListeners s;
     calls := cs; decoding := decoding s;
     location := location s |}.

Definition set_decoding (ds : list (option value)) (s : state) : state :=
  {| jobData := jobData s; isInitialized := isInitialized s;
     currentTooltip := currentTooltip s; overlays := overlays s;
     nextId := nextId s; timers := timers s; fetchWrappers := fetchWrappers s;
     clickListeners := clickListeners s;
     calls := calls s; decoding := ds;
     location := location s |}.

(** [constructor()], on a page at [href]. *)
Definition new (href : string) : state :=
  {| jobData := ∅; isInitialized := false; currentTooltip := None;
     overlays := []; nextId := 0; timers := []; fetchWrappers := 0;
     clickListeners := 0;
     calls := []; decoding := [];
     location := href |}.

Section Script.

Variable formatDate : value -> string.

Definition convertTimestamp (timestamp : value) : string :=
  if negb (truthy timestamp) then "N/A" else formatDate timestamp.

Definition patterns : list regex := [rule_view; rule_current; rule_posting].

Definition extractJobId (url : string) : option string :=
  firstCapture patterns url.

Definition extractJobId_of (v : value) : result value :=
  match v with
  | VStr url => Ok (of_attr (extractJobId url))
  | _ => Throw TypeError
  end.

Definition mkJobInfo (jobId job : value) : jobInfo :=
  {| id := jobId;
     listedAt := convertTimestamp (get_opt job "listedAt");
     expireAt := convertTimestamp (get_opt job "expireAt");
     views := or_else (get_opt job "views") (VStr "N/A");
     applies := or_else (get_opt job "applies") (VStr "N/A") |}.

(** The callback of [jobs.forEach]. *)
Definition storeJob (job : value) (m : gmap key jobInfo)
  : gmap key jobInfo * result unit :=
  match get job "jobPostingId" with
  | Throw e => (m, Throw e)
  | Ok posting =>
      match (if truthy posting then Ok posting
             else extractJobId_of (or_else (get_opt job "entityUrn") (VStr ""))) with
      | Throw e => (m, Throw e)
      | Ok jobId =>
          if truthy jobId
          then (<[to_key jobId := mkJobInfo jobId job]> m, Ok ())
          else (m, Ok ())
      end
  end.

(** [data.elements || (data.data && data.data.elements) ||
    (Array.isArray(data) ? data : [data])] *)
Definition selectJobs (data : value) : result value :=
  elements ← get data "elements";
  if truthy elements then Ok elements else
  inner ← get data "data";
  nested ← (if truthy inner then get inner "elements" else Ok inner);
  if truthy nested then Ok nested else
  if isArray data then Ok data else Ok (VArr 0%N [data]).

Definition processJobData_try (data : value) (m : gmap key jobInfo)
  : gmap key jobInfo * result unit :=
  match selectJobs data with
  | Throw e => (m, Throw e)
  | Ok (VArr _ jobs) => forEach storeJob jobs m
  | Ok _ => (m, Throw TypeError)
  end.

Definition processJobData (data : value) (s : state) : state :=
  set_jobData (fst (processJobData_try data (jobData s))) s.

(** [clonedResponse.json().then(data => self.processJobData(data))
    .catch(console.log)], once the decoding has settled to [d]. *)
Definition onDecoded (d : option value) (s : state) : state :=
  match d with
  | Some data => processJobData data s   (* [.then(data => ...)] *)
  | None => s                            (* [.catch(console.log)] *)
  end.

(** The continuation [response => { ...; return response; }] of the wrapper
    that has [k] wrappers between it and the native primitive: it starts
    the decoding of a clone, which is the one started after [k] earlier
    ones, and returns at once. *)
Definition onResponse (k : nat) (resp : response) (s : state) : response * state :=
  if resp_ok resp
  then (resp, set_decoding (decoding s ++ [resp_json resp k]) s)
  else (resp, s).

Definition endpoint : string := "voyager/api/jobs/jobPostings".

Definition wrapper {W : Type} (k : nat)
    (originalFetch : list value -> W * state -> outcome * (W * state))
    (args : list value) (ws : W * state) : outcome * (W * state) :=
  match default VUndef (head args) with
  | VStr url =>
      if includes endpoint url then
        let '(o, (w, s)) := originalFetch args ws in
        let '(o', s') := and_then o (onResponse k) s in
        (o', (w, s'))
      else originalFetch args ws
  | _ => originalFetch args ws
  end.

Fixpoint windowFetch {W : Type} (native : list value -> W -> outcome * W)
    (n : nat) : list value -> W * state -> outcome * (W * state) :=
  match n with
  | O => fun args '(w, s) => let '(o, w') := native args w in (o, (w', s))
  | S n' => wrapper n' (windowFetch native n')
  end.

(** The [j]-th decoding in flight settles. *)
Definition decoded (j : nat) (s : state) : state :=
  match decoding s !! j with
  | Some d => onDecoded d (set_decoding (drop_nth j (decoding s)) s)
  | None => s
  end.

(** The decodings in flight from the [j]-th on settle, in the order in
    which they were started. *)
Definition settle (j : nat) (s : state) : state :=
  Nat.iter (length (decoding s) - j) (decoded j) s.

(** A call of [window.fetch(...args)] by the page that nothing else on the
    page interleaves with: the native primitive settles, then the decodings
    the wrappers have started on its response. *)
Definition callFetch {W : Type} (native : list value -> W -> outcome * W)
    (args : list value) (ws : W * state) : outcome * (W * state) :=
  let '(o, (w, s)) := windowFetch native (fetchWrappers (snd ws)) args ws in
  (o, (w, settle (length (decoding (snd ws))) s)).

Definition interceptNetworkRequests (s : state) : state :=
  set_listeners (S (fetchWrappers s)) (clickListeners s) s.

Definition setupJobClickHandlers (s : state) : state :=
  set_listeners (fetchWrappers s) (S (clickListeners s)) s.

Definition init (s : state) : state :=
  if isInitialized s then s
  else set_isInitialized true
         (setupJobClickHandlers (interceptNetworkRequests s)).

Definition removeExistingTooltip (s : state) : state :=
  match currentTooltip s with
  | Some t => set_tooltip None (detach t (overlays s)) s
  | None => s
  end.

Definition rows (jobInfo : jobInfo) : list (string * value) :=
  [ ("Listed:", VStr (listedAt jobInfo));
    ("Expires:", VStr (expireAt jobInfo));
    ("Views:", views jobInfo);
    ("Applies:", applies jobInfo) ].

Definition showJobInsights (jobCard : card) (s : state) : state :=
  let jobId :=
    or_else (of_attr (attr_job_id jobCard))
      (of_attr (extractJobId (str_or (card_href jobCard) (location s)))) in
  match jobId with
  | VStr jobId =>
      if negb (truthy (VStr jobId)) then s else
      match jobData s !! KStr jobId with
      | None => s
      | Some jobInfo =>
          let s1 := removeExistingTooltip s in
          let tooltip := nextId s1 in
          let el := {| el_id := tooltip; el_rows := rows jobInfo;
                       el_style := None |} in
          let s2 := set_nextId (S tooltip)
                      (set_tooltip (Some tooltip) (overlays s1 ++ [el]) s1) in
          set_timers (timers s2 ++ [TDismiss tooltip]) s2
      end
  | _ => s
  end.

Definition runTimer (t : timer) (s : state) : state :=
  match t with
  | TShowCard jobCard => showJobInsights jobCard s
  | TDismiss _ => removeExistingTooltip s
  end.

Inductive event : Type :=
| EInit
| EFetch (args : list value)              (* the page calls [fetch(...args)] *)
| EAnswer (i : nat) (o : outcome)         (* the native primitive settles the
                                             [i]-th awaiting call to [o] *)
| EDecoded (j : nat)                      (* the [j]-th decoding settles *)
| EClick (jobCard : option card)
| EClose (tooltip : nat)
| ENavigate (href : string)
| EFire (i : nat).

Definition step (e : event) (s : state) : state :=
  match e with
  | EInit => init s
  | EFetch args => set_calls (calls s ++ [(args, fetchWrappers s)]) s
  | EAnswer i o =>
      match calls s !! i with
      | Some (args, n) =>
          snd (snd (windowFetch (fun _ (w : unit) => (o, w)) n args
                      ((), set_calls (drop_nth i (calls s)) s)))
      | None => s
      end
  | EDecoded j => decoded j s
  | EClick None => s
  | EClick (Some jobCard) =>
      set_timers (timers s ++ replicate (clickListeners s) (TShowCard jobCard)) s
  | EClose tooltip => set_tooltip (currentTooltip s) (detach tooltip (overlays s)) s
  | ENavigate href => set_location href s
  | EFire i =>
      match timers s !! i with
      | Some t => runTimer t (set_timers (drop_nth i (timers s)) s)
      | None => s
      end
  end.

Definition run (es : list event) (s : state) : state :=
  foldl (fun s e => step e s) s es.

End Script.

End ExeInstaller.

(** * Vocabulary of the properties *)

Local Open Scope list_scope.

(** ** Texts and rules *)

(** An atom that consumes exactly one character. *)
Definition single (a : atom) (c : ascii) : Prop :=
  match a with
  | Chr c' => c' = c
  | OneOf cs => accepts cs c = true
  | Digits1 => False
  end.

(** The text of a URL, and the shapes of its parts. *)
Abbreviation chars := list_ascii_of_string.

Definition isNumber (d : string) : bool :=
  negb (String.eqb d "") && forallb isDigit (chars d).

Definition startsWithDigit (s : string) : bool :=
  match chars s with
  | c :: _ => isDigit c
  | [] => false
  end.

(** [res] is the capture of the first rule of [ps] that matches [url]. *)
Definition first_matching_rule (ps : list regex) (url : string)
    (res : option string) : Prop :=
  (∃ i r caps,
      ps !! i = Some r ∧ search r (chars url) = Some caps ∧
      (∀ j r', j < i → ps !! j = Some r' → search r' (chars url) = None) ∧
      res = string_of_list_ascii <$> head caps)
  ∨ ((∀ r, r ∈ ps → search r (chars url) = None) ∧ res = None).

(** The text [jobPostingId] between double quotes, followed by a colon and
    an opening double quote. *)
Definition quotedField : string :=
  String dq ("jobPostingId" +:+ String dq (String ":"%char (String dq ""))).

Definition closingQuote : string := String dq "".

(** The text [m] stands in [url] right after [a] and a decimal digit
    follows it. *)
Definition digitAfter (m a url : string) : Prop :=
  ∃ c b, url = a +:+ m +:+ String c b ∧ isDigit c = true.

(** Nowhere in [url] does a digit follow the text [m]. *)
Definition noDigitAfter (m url : string) : Prop :=
  ∀ a, ¬ digitAfter m a url.

(** Nowhere in [url] before the place right after [pre] does a digit follow
    the text [m]. *)
Definition firstDigitAfter (m pre url : string) : Prop :=
  ∀ a, digitAfter m a url → (String.length pre ≤ String.length a)%nat.

(** The first place of [url] where the text [m] stands, counted in
    characters from the start. *)
Fixpoint firstAt (m url : string) : option nat :=
  if String.prefix m url then Some 0
  else match url with
       | String _ url' => S <$> firstAt m url'
       | EmptyString => None
       end.

(** The quoted field with a number and its closing quote stands in [url]
    right after [a]. *)
Definition quotedAt (a url : string) : Prop :=
  ∃ d b, url = a +:+ quotedField +:+ d +:+ closingQuote +:+ b ∧
         isNumber d = true.

(** ** Payloads *)


(** A payload [{elements: [job]}]. *)
Definition payload (job : value) : value :=
  VObj 1%N [("elements", VArr 2%N [job])].

(** A payload of no recognised shape: [elements] is not a list,
    [data.elements] is not a list, the payload is not a list, and it is not
    a job entry (it bears neither a [jobPostingId] nor an [entityUrn]). *)
Definition unrecognized (data : value) : bool :=
  negb (isArray (get_opt data "elements")) &&
  negb (isArray (get_opt (get_opt data "data") "elements")) &&
  negb (isArray data) &&
  negb (truthy (or_else (get_opt data "jobPostingId") (get_opt data "entityUrn"))).


(** The first argument of a call is not a string that contains the
    endpoint signature. *)
Definition offTarget (endpoint : string) (args : list value) : Prop :=
  ∀ url, head args = Some (VStr url) → includes endpoint url = false.

(** ** Invariants *)

(** At most one panel is attached, and it is the one [currentTooltip]
    refers to. *)
Definition single_panel (els : list element) (current : option nat) : Prop :=
  els = [] ∨ ∃ e, els = [e] ∧ current = Some (el_id e).

(** The number of wrappers is at most one, and none before [init], as
    long as [destroy] does not run. *)
Definition one_wrapper (wrappers : nat) (initialized : bool) : Prop :=
  (wrappers ≤ 1)%nat ∧ (initialized = false → wrappers = 0).

(** ** A sample page *)

(** The rendering of every timestamp in the sample locale. *)
Definition sampleDate : value → string := λ _, "3/14/2024 09:26 AM".

(** A job page with the details pane laid out, and one without it. *)
Definition detailsPane : viewport :=
  {| anchor := Some {| r_top := 100; r_right := 900 |};
     offsetWidth := 300; innerWidth := 1280 |}.

Definition noDetailsPane : viewport :=
  {| anchor := None; offsetWidth := 300; innerWidth := 1280 |}.

Definition jobsUrl : string := "https://www.linkedin.com/jobs/".

Definition voyagerUrl : string :=
  "https://www.linkedin.com/voyager/api/jobs/jobPostings?count=25".

Definition sampleJob (a : addr) (jobId : string) (n : Z) : value :=
  VObj a [("jobPostingId", VStr jobId); ("views", VNum n)].

(** What the decoding of the sample body started after [k] earlier ones
    builds: two postings, ["1"] and ["2"], in four objects of its own. *)
Definition sampleBody (k : nat) : value :=
  let a := N.of_nat (4 * k) in
  VObj (a + 1)%N
    [("elements",
      VArr (a + 2)%N [sampleJob (a + 3)%N "1" 10; sampleJob (a + 4)%N "2" 20])].

(** A response of the endpoint with that body. *)
Definition sampleResponse : response :=
  {| resp_ok := true;
     resp_json := λ k, Some (sampleBody k);
     resp_tag := 0 |}.

(** A response whose every decoding settles to [data]. *)
Definition responseOf (data : value) : response :=
  {| resp_ok := true; resp_json := λ _, Some data; resp_tag := 0 |}.

(** The zip installer's script after [init] and the harvest of the sample
    response, on a page laid out as [v]: the page calls [fetch], the network
    answers, the decoding settles. *)
Definition harvestedPage (v : viewport) : Installer.state :=
  Installer.run sampleDate
    [Installer.EInit; Installer.EFetch [VStr voyagerUrl];
     Installer.EAnswer 0 (Resolved sampleResponse); Installer.EDecoded 0]
    (Installer.new jobsUrl v).

(** The same for the GUI installer's script. *)
Definition harvestedExePage : ExeInstaller.state :=
  ExeInstaller.run sampleDate
    [ExeInstaller.EInit; ExeInstaller.EFetch [VStr voyagerUrl];
     ExeInstaller.EAnswer 0 (Resolved sampleResponse); ExeInstaller.EDecoded 0]
    (ExeInstaller.new jobsUrl).



(** A native [fetch] that logs the arguments of each call in the host's
    world and resolves with the sample response. *)
Definition loggingFetch (args : list value) (log : list (list value))
  : outcome * list (list value) :=
  (Resolved sampleResponse, log ++ [args]).


(** ** Statements of the specification the scripts do not meet *)

(** Teardown as the specification words it, for the state [s0] before
    [init] and the state [s] after [destroy]: the cache is empty, no panel is
    attached, the fetch primitive and the listeners are those of [s0]. *)
Definition teardown_restores (s0 s : Installer.state) : Prop :=
  Installer.jobData s = ∅ ∧
  Installer.overlays s = [] ∧
  Installer.fetchWrappers s = Installer.fetchWrappers s0 ∧
  Installer.clickListeners s = Installer.clickListeners s0 ∧
  Installer.navObservers s = Installer.navObservers s0 ∧
  Installer.observer s ≠ Some true.



(** No stacking as the specification words it, for a sequence of calls of
    [init] and [destroy]. *)
Definition never_stacked (es : list Installer.event) : Prop :=
  Forall (λ e, e = Installer.EInit ∨ e = Installer.EDestroy) es →
  (Installer.fetchWrappers
     (Installer.run sampleDate es (Installer.new jobsUrl detailsPane)) ≤ 1)%nat.

(** ** Vocabulary of the further properties *)

(** A payload [{elements: jobs}]. *)
Definition payloadList (jobs : list value) : value :=
  VObj 1%N [("elements", VArr 2%N jobs)].

(** An entry on which the callback of the harvest raises: [null], or an
    entry without a [jobPostingId] whose [entityUrn] is not a text. *)
Definition breaksHarvest (bad : value) : Prop :=
  bad = VNull ∨
  ∃ a fs urn,
    bad = VObj a fs ∧
    truthy (default VUndef (assoc "jobPostingId" fs)) = false ∧
    assoc "entityUrn" fs = Some urn ∧ truthy urn = true ∧ ∀ u, urn ≠ VStr u.


(** A missing or empty attribute or [href]. *)
Definition blank (a : option string) : bool :=
  match a with
  | Some s => String.eqb s ""
  | None => true
  end.

(** A card that bears the attribute [data-job-id] and nothing else. *)
Definition cardWithId (jobId : string) : card :=
  {| attr_job_id := Some jobId; attr_occludable := None;
     card_href := None; card_link := None |}.

(** Events other than a call of [fetch] by the page. *)
Definition Installer_noCall (e : Installer.event) : Prop :=
  match e with
  | Installer.EFetch _ => False
  | _ => True
  end.

Definition ExeInstaller_noCall (e : ExeInstaller.event) : Prop :=
  match e with
  | ExeInstaller.EFetch _ => False
  | _ => True
  end.

(** Events other than the settling of a decoding. *)
Definition Installer_noHarvest (e : Installer.event) : Prop :=
  match e with
  | Installer.EDecoded _ => False
  | _ => True
  end.

Definition ExeInstaller_noHarvest (e : ExeInstaller.event) : Prop :=
  match e with
  | ExeInstaller.EDecoded _ => False
  | _ => True
  end.

(** The events of a call of [fetch]: the call, the answer of the network and
    the settling of a decoding. *)
Definition Installer_network (e : Installer.event) : Prop :=
  match e with
  | Installer.EFetch _ | Installer.EAnswer _ _ | Installer.EDecoded _ => True
  | _ => False
  end.

Definition ExeInstaller_network (e : ExeInstaller.event) : Prop :=
  match e with
  | ExeInstaller.EFetch _ | ExeInstaller.EAnswer _ _
  | ExeInstaller.EDecoded _ => True
  | _ => False
  end.

(** The decodings that [n] stacked wrappers start when a call with the
    arguments [args] settles to [o]: one each, when the first argument is a
    string with the endpoint signature and the response is [ok]. *)
Definition clones (endpoint : string) (n : nat) (args : list value)
    (o : outcome) : list (option value) :=
  match default VUndef (head args), o with
  | VStr url, Resolved resp =>
      if includes endpoint url && resp_ok resp
      then map (resp_json resp) (seq 0 n)
      else []
  | _, _ => []
  end.

(** The number of calls of [destroy()] among the events. *)
Fixpoint destroys (es : list Installer.event) : nat :=
  match es with
  | [] => 0
  | Installer.EDestroy :: es' => S (destroys es')
  | _ :: es' => destroys es'
  end.

(** What [init()] has installed so far, with at most [d] calls of
    [destroy()] behind. *)
Definition installed (s : Installer.state) (d : nat) : Prop :=
  Installer.clickListeners s = Installer.fetchWrappers s ∧
  length (Installer.navObservers s) = Installer.fetchWrappers s ∧
  (Installer.isInitialized s = true →
     Installer.observer s = Some true ∧ (1 ≤ Installer.fetchWrappers s)%nat) ∧
  (Installer.fetchWrappers s + (if Installer.isInitialized s then 0 else 1)
   ≤ 1 + d)%nat.

(** * Properties *)

(** ** The identifier rules *)

Section RegexFacts.

Implicit Types (r : regex) (s d : list ascii).

Lemma search_None r s :
  search r s = None ↔ ∀ pre post, s = (pre ++ post)%list → match_here r post = None.
Proof.
  split.
  - induction s as [|c s IH]; simpl; intros H pre post E.
    + destruct pre; [|discriminate]. simpl in E. subst post.
      destruct (match_here r []); [discriminate|reflexivity].
    + destruct (match_here r (c :: s)) eqn:Hm; [discriminate|].
      destruct pre as [|c' pre]; simpl in E.
      * by subst post.
      * injection E as -> E. by eapply IH.
  - induction s as [|c s IH]; simpl; intros H.
    + by rewrite (H [] []).
    + rewrite (H [] (c :: s)); [|done]. apply IH.
      intros pre post E. apply (H (c :: pre) post). by rewrite E.
Qed.

(** [search] returns the match at the leftmost position that has one. *)
Lemma search_Some r s caps :
  search r s = Some caps ↔
  ∃ pre post, s = (pre ++ post)%list ∧ match_here r post = Some caps ∧
    ∀ pre' post', s = (pre' ++ post')%list → length pre' < length pre →
      match_here r post' = None.
Proof.
  split.
  - revert caps. induction s as [|c s IH]; simpl; intros caps H.
    + destruct (match_here r []) eqn:Hm; [|discriminate].
      exists [], []. split; [done|]. split; [congruence|].
      simpl. intros; lia.
    + destruct (match_here r (c :: s)) eqn:Hm.
      * exists [], (c :: s). split; [done|]. split; [congruence|].
        simpl. intros; lia.
      * destruct (IH _ H) as (pre & post & -> & Hp & Hleft).
        exists (c :: pre), post. split; [done|]. split; [done|].
        intros [|c' pre'] post' E Hlen; simpl in *.
        -- by subst post'.
        -- injection E as -> E. apply (Hleft pre' post' E). lia.
  - intros (pre & post & -> & Hp & Hleft).
    induction pre as [|c pre IH]; simpl.
    + destruct post; simpl; by rewrite Hp.
    + rewrite (Hleft [] (c :: pre ++ post)%list); [|done|simpl; lia].
      apply IH. intros pre' post' E Hlen.
      apply (Hleft (c :: pre') post'); [simpl; congruence|simpl; lia].
Qed.

Lemma search_here r s caps :
  match_here r s = Some caps → search r s = Some caps.
Proof. intros H. destruct s; simpl; by rewrite H. Qed.

Lemma match_here_singles fx L r s :
  Forall2 single fx L →
  match_here (fx ++ r) (L ++ s) = match_here r s.
Proof.
  induction 1 as [|a c fx L Ha _ IH]; [done|].
  destruct a; simpl in *; [subst c0| |done].
  - by rewrite Ascii.eqb_refl.
  - by rewrite Ha.
Qed.

(** [(\d+)] takes the whole run of digits when the rest of the rule
    matches behind it. *)
Lemma match_here_digits r d s caps :
  d ≠ [] → Forall (λ c, isDigit c = true) d →
  (∀ c, head s = Some c → isDigit c = false) →
  match_here r s = Some caps →
  match_here (Digits1 :: r) (d ++ s) = Some (d :: caps).
Proof.
  intros Hne Hd Hs Hr. induction Hd as [|c d Hc Hd IH]; [done|].
  change (match_here (Digits1 :: r) ((c :: d) ++ s)) with
    (if isDigit c then
       match match_here (Digits1 :: r) (d ++ s) with
       | Some (cap :: caps) => Some ((c :: cap) :: caps)
       | _ => match match_here r (d ++ s) with
              | Some caps => Some ([c] :: caps)
              | None => None
              end
       end
     else None).
  rewrite Hc. destruct d as [|c' d'].
  - simpl. rewrite Hr. destruct s as [|x s']; [done|].
    by rewrite (Hs x eq_refl).
  - by rewrite IH.
Qed.

Lemma firstCapture_spec ps url :
  let text := list_ascii_of_string url in
  (∃ i r caps,
      ps !! i = Some r ∧ search r text = Some caps ∧
      (∀ j r', j < i → ps !! j = Some r' → search r' text = None) ∧
      firstCapture ps url = string_of_list_ascii <$> head caps)
  ∨ ((∀ r, r ∈ ps → search r text = None) ∧ firstCapture ps url = None).
Proof.
  intros text. induction ps as [|p ps IH]; simpl.
  - right. split; [|done]. intros r Hr. by apply elem_of_nil in Hr.
  - fold text. destruct (search p text) as [caps|] eqn:Hp.
    + left. exists 0, p, caps. repeat split; try done. intros; lia.
    + destruct IH as [(i & r & caps & Hi & Hr & Hbefore & Hres)|[Hnone Hres]].
      * left. exists (S i), r, caps. repeat split; try done.
        intros [|j] r' Hj Hl; simpl in Hl.
        -- by injection Hl as <-.
        -- apply (Hbefore j); [lia|done].
      * right. split; [|done]. intros r Hr.
        apply elem_of_cons in Hr as [->|Hr]; [done|by apply Hnone].
Qed.

Lemma list_ascii_of_string_app (a b : string) :
  list_ascii_of_string (a +:+ b) =
  (list_ascii_of_string a ++ list_ascii_of_string b)%list.
Proof. induction a as [|c a IH]; simpl; [done|by rewrite IH]. Qed.

Lemma string_of_list_ascii_app (a b : list ascii) :
  string_of_list_ascii (a ++ b) = string_of_list_ascii a +:+ string_of_list_ascii b.
Proof. induction a as [|c a IH]; simpl; [done|by rewrite IH]. Qed.

(** The group [(\d+)] captures a non-empty run of digits at the start of
    the text, and the rest of the rule matches behind it. *)
Lemma match_here_group r s caps :
  match_here (Digits1 :: r) s = Some caps →
  ∃ cap caps' rest,
    caps = cap :: caps' ∧ cap ≠ [] ∧ Forall (λ c, isDigit c = true) cap ∧
    s = cap ++ rest ∧ match_here r rest = Some caps'.
Proof.
  revert caps. induction s as [|d s IH]; intros caps; [done|].
  change (match_here (Digits1 :: r) (d :: s)) with
    (if isDigit d then
       match match_here (Digits1 :: r) s with
       | Some (cap :: caps) => Some ((d :: cap) :: caps)
       | _ => match match_here r s with
              | Some caps => Some ([d] :: caps)
              | None => None
              end
       end
     else None).
  destruct (isDigit d) eqn:Hd; [|done].
  destruct (match_here (Digits1 :: r) s) as [[|cap caps1]|] eqn:E.
  - destruct (match_here r s) as [caps'|] eqn:E'; [|done]. intros [= <-].
    exists [d], caps', s. repeat split; try done. by repeat constructor.
  - intros [= <-].
    destruct (IH _ eq_refl) as (cap0 & caps' & rest & [= -> ->] & Hne & Hdig & -> & Hr).
    exists (d :: cap0), caps', rest. repeat split; try done. by constructor.
  - destruct (match_here r s) as [caps'|] eqn:E'; [|done]. intros [= <-].
    exists [d], caps', s. repeat split; try done. by repeat constructor.
Qed.

(** A rule that starts with literal characters only matches where they
    stand. *)
Lemma match_here_lit (m : string) r s caps :
  match_here (lit m ++ r) s = Some caps →
  ∃ s', s = chars m ++ s' ∧ match_here r s' = Some caps.
Proof.
  unfold lit. revert s. induction (chars m) as [|c l IH]; intros s; simpl.
  - intros H. by exists s.
  - destruct s as [|x s]; [done|]. destruct (Ascii.eqb c x) eqn:E; [|done].
    apply Ascii.eqb_eq in E as ->. intros (s' & -> & H)%IH. by exists s'.
Qed.

(** The group [(\d+)] only matches where a digit stands. *)
Lemma match_here_digit r s caps :
  match_here (Digits1 :: r) s = Some caps →
  ∃ c s', s = c :: s' ∧ isDigit c = true.
Proof.
  intros (cap & caps' & rest & -> & Hne & Hd & -> & _)%match_here_group.
  destruct Hd as [|c cap Hc _]; [done|]. by exists c, (cap ++ rest).
Qed.

Lemma length_string_of_list_ascii (l : list ascii) :
  String.length (string_of_list_ascii l) = length l.
Proof. induction l as [|c l IH]; simpl; [done|by rewrite IH]. Qed.

Lemma length_chars (a : string) : length (chars a) = String.length a.
Proof. induction a as [|c a IH]; simpl; [done|by rewrite IH]. Qed.

(** A place in the characters of a text is a place in the text. *)
Lemma text_split (url m : string) (before after : list ascii) :
  chars url = before ++ chars m ++ after →
  url = string_of_list_ascii before +:+ m +:+ string_of_list_ascii after ∧
  String.length (string_of_list_ascii before) = length before.
Proof.
  intros H. split; [|apply length_string_of_list_ascii].
  rewrite <- (string_of_list_ascii_of_string url), H.
  by rewrite !string_of_list_ascii_app, string_of_list_ascii_of_string.
Qed.

Lemma isNumber_digits (d : list ascii) :
  d ≠ [] → Forall (λ c, isDigit c = true) d →
  isNumber (string_of_list_ascii d) = true.
Proof.
  intros Hne Hd. unfold isNumber. rewrite list_ascii_of_string_of_list_ascii.
  apply andb_true_intro. split.
  - by destruct d.
  - clear Hne. induction Hd as [|c d Hc _ IH]; simpl; [done|]. by rewrite Hc.
Qed.

(** Where the rules match: each at a place where its opening text stands
    with a digit behind it. *)
Lemma rule_view_here s caps :
  match_here rule_view s = Some caps →
  ∃ c b, s = chars "/jobs/view/" ++ c :: b ∧ isDigit c = true.
Proof.
  unfold rule_view.
  intros (s' & -> & (c & b & -> & Hc)%match_here_digit)%match_here_lit.
  by exists c, b.
Qed.

Lemma rule_current_here s caps :
  match_here rule_current s = Some caps →
  ∃ c b, s = chars "currentJobId=" ++ c :: b ∧ isDigit c = true.
Proof.
  unfold rule_current.
  intros (s' & -> & (c & b & -> & Hc)%match_here_digit)%match_here_lit.
  by exists c, b.
Qed.

Lemma rule_posting_here s caps :
  match_here rule_posting s = Some caps →
  ∃ (m : string) c b,
    (m = "jobPostingId=" ∨ m = "jobPostingId:") ∧
    s = chars m ++ c :: b ∧ isDigit c = true.
Proof.
  unfold rule_posting. intros (s' & -> & H)%match_here_lit.
  destruct s' as [|sep s']; [done|].
  change (match_here [OneOf ["="%char; ":"%char]; Digits1] (sep :: s'))
    with (if accepts ["="%char; ":"%char] sep
          then match_here [Digits1] s' else None) in H.
  destruct (accepts ["="%char; ":"%char] sep) eqn:E; [|done].
  apply match_here_digit in H as (c & b & -> & Hc).
  unfold accepts in E. simpl in E. rewrite orb_false_r in E.
  apply orb_prop in E as [->%Ascii.eqb_eq | ->%Ascii.eqb_eq].
  - exists "jobPostingId=", c, b. by repeat split; [left|..].
  - exists "jobPostingId:", c, b. by repeat split; [right|..].
Qed.

Lemma rule_field_here s caps :
  match_here rule_field s = Some caps →
  ∃ d b, d ≠ [] ∧ Forall (λ c, isDigit c = true) d ∧
         s = chars quotedField ++ d ++ chars closingQuote ++ b.
Proof.
  change rule_field with (lit quotedField ++ [Digits1; Chr dq]).
  intros (s' & -> & H)%match_here_lit.
  apply match_here_group in H as (d & caps' & rest & _ & Hne & Hd & -> & Hr).
  destruct rest as [|x rest]; [done|].
  change (match_here [Chr dq] (x :: rest))
    with (if Ascii.eqb dq x then Some (@nil (list ascii)) else None) in Hr.
  destruct (Ascii.eqb dq x) eqn:E; [|done]. apply Ascii.eqb_eq in E as <-.
  by exists d, rest.
Qed.

(** The match of a rule at a place before which it matches nowhere is the
    match [String.prototype.match] returns. *)
Lemma search_first r (url pre : string) post caps :
  chars url = chars pre ++ post → match_here r post = Some caps →
  (∀ before after, chars url = before ++ after →
     length before < String.length pre → match_here r after = None) →
  search r (chars url) = Some caps.
Proof.
  intros Hurl Hm Hleft. apply search_Some. exists (chars pre), post.
  repeat split; try done. intros before after E Hlen. apply (Hleft before after E).
  by rewrite length_chars in Hlen.
Qed.

End RegexFacts.

Section Shapes.

Lemma single_lit (s : string) : Forall2 single (lit s) (chars s).
Proof.
  unfold lit. induction (chars s) as [|c l IH]; simpl; by constructor.
Qed.

Lemma isNumber_Forall d :
  isNumber d = true → chars d ≠ [] ∧ Forall (λ c, isDigit c = true) (chars d).
Proof.
  unfold isNumber. intros [Hne Hd]%andb_prop. split.
  - destruct d; [done|]. simpl. done.
  - clear Hne. induction (chars d) as [|c l IH]; simpl in *; [by constructor|].
    apply andb_prop in Hd as [Hc Hl]. constructor; [done|by apply IH].
Qed.

Lemma startsWithDigit_head s :
  startsWithDigit s = false → ∀ c, head (chars s) = Some c → isDigit c = false.
Proof.
  unfold startsWithDigit. destruct (chars s); simpl; [done|].
  by intros H c [= <-].
Qed.

(** The match of a rule [fx (\d+) r] on [L d s], for [L] the characters
    [fx] accepts and [s] a text [r] matches at its start. *)
Lemma match_number fx (L d s : string) r caps :
  Forall2 single fx (chars L) → isNumber d = true →
  startsWithDigit s = false → match_here r (chars s) = Some caps →
  match_here (fx ++ Digits1 :: r) (chars (L +:+ d +:+ s)) = Some (chars d :: caps).
Proof.
  intros Hfx [Hne Hd]%isNumber_Forall Hs Hr.
  rewrite !list_ascii_of_string_app, match_here_singles by done.
  apply match_here_digits; try done. by apply startsWithDigit_head.
Qed.

(** A rule that only matches where one of the texts [ms] stands with a
    digit behind it matches nowhere before the first such place, and nowhere
    when there is no such place. *)
Lemma before_first r (ms : list string) (url pre : string) :
  (∀ s caps, match_here r s = Some caps →
     ∃ m c b, m ∈ ms ∧ s = chars m ++ c :: b ∧ isDigit c = true) →
  (∀ m, m ∈ ms → firstDigitAfter m pre url) →
  ∀ before after, chars url = before ++ after →
    length before < String.length pre → match_here r after = None.
Proof.
  intros Hshape Hfirst before after E Hlen.
  destruct (match_here r after) as [caps|] eqn:Hm; [|done]. exfalso.
  destruct (Hshape _ _ Hm) as (m & c & b & Hin & -> & Hc).
  destruct (text_split url m before (c :: b) E) as [Hurl Hl].
  assert (Hat : digitAfter m (string_of_list_ascii before) url).
  { by exists c, (string_of_list_ascii b). }
  apply (Hfirst m Hin) in Hat. lia.
Qed.

Lemma nowhere r (ms : list string) (url : string) :
  (∀ s caps, match_here r s = Some caps →
     ∃ m c b, m ∈ ms ∧ s = chars m ++ c :: b ∧ isDigit c = true) →
  (∀ m, m ∈ ms → noDigitAfter m url) →
  search r (chars url) = None.
Proof.
  intros Hshape Hno. apply search_None. intros before after E.
  destruct (match_here r after) as [caps|] eqn:Hm; [|done]. exfalso.
  destruct (Hshape _ _ Hm) as (m & c & b & Hin & -> & Hc).
  destruct (text_split url m before (c :: b) E) as [Hurl Hl].
  apply (Hno m Hin (string_of_list_ascii before)).
  by exists c, (string_of_list_ascii b).
Qed.

Lemma view_places s caps :
  match_here rule_view s = Some caps →
  ∃ (m : string) c b, m ∈ ["/jobs/view/"] ∧ s = chars m ++ c :: b ∧ isDigit c = true.
Proof.
  intros (c & b & -> & Hc)%rule_view_here.
  exists "/jobs/view/", c, b. by rewrite list_elem_of_singleton.
Qed.

Lemma current_places s caps :
  match_here rule_current s = Some caps →
  ∃ (m : string) c b,
    m ∈ ["currentJobId="] ∧ s = chars m ++ c :: b ∧ isDigit c = true.
Proof.
  intros (c & b & -> & Hc)%rule_current_here.
  exists "currentJobId=", c, b. by rewrite list_elem_of_singleton.
Qed.

Lemma posting_places s caps :
  match_here rule_posting s = Some caps →
  ∃ (m : string) c b,
    m ∈ ["jobPostingId="; "jobPostingId:"] ∧
    s = chars m ++ c :: b ∧ isDigit c = true.
Proof.
  intros H. apply rule_posting_here in H as (m & c & b & Hin & -> & Hc).
  exists m, c, b. repeat split; [|done].
  destruct Hin as [-> | ->]; [apply list_elem_of_here|].
  apply list_elem_of_further, list_elem_of_here.
Qed.

Lemma quoted_place (url : string) before after caps :
  chars url = before ++ after → match_here rule_field after = Some caps →
  quotedAt (string_of_list_ascii before) url.
Proof.
  intros E (d & b & Hne & Hd & ->)%rule_field_here.
  destruct (text_split url quotedField before _ E) as [Hurl _].
  exists (string_of_list_ascii d), (string_of_list_ascii b).
  split; [|by apply isNumber_digits].
  by rewrite Hurl, !string_of_list_ascii_app, string_of_list_ascii_of_string.
Qed.

Lemma view_nowhere url :
  noDigitAfter "/jobs/view/" url → search rule_view (chars url) = None.
Proof.
  intros H. apply (nowhere _ ["/jobs/view/"]); [apply view_places|].
  by intros m ->%list_elem_of_singleton.
Qed.

Lemma current_nowhere url :
  noDigitAfter "currentJobId=" url → search rule_current (chars url) = None.
Proof.
  intros H. apply (nowhere _ ["currentJobId="]); [apply current_places|].
  by intros m ->%list_elem_of_singleton.
Qed.

Lemma posting_nowhere url :
  noDigitAfter "jobPostingId=" url → noDigitAfter "jobPostingId:" url →
  search rule_posting (chars url) = None.
Proof.
  intros H1 H2.
  apply (nowhere _ ["jobPostingId="; "jobPostingId:"]); [apply posting_places|].
  intros m Hm. apply elem_of_cons in Hm as [->|Hm]; [done|].
  by apply list_elem_of_singleton in Hm as ->.
Qed.

Lemma field_nowhere url :
  (∀ a, ¬ quotedAt a url) → search rule_field (chars url) = None.
Proof.
  intros Hno. apply search_None. intros before after E.
  destruct (match_here rule_field after) as [caps|] eqn:Hm; [|done].
  by destruct (Hno _ (quoted_place url before after caps E Hm)).
Qed.

(** A rule decides the result when the rules before it do not match. *)
Lemma firstCapture_at before r after url cap caps :
  Forall (λ r', search r' (chars url) = None) before →
  search r (chars url) = Some (cap :: caps) →
  firstCapture (before ++ r :: after) url = Some (string_of_list_ascii cap).
Proof.
  intros Hb Hr. induction Hb as [|r' before Hr' _ IH]; simpl.
  - by rewrite Hr.
  - by rewrite Hr'.
Qed.

End Shapes.

(** Conclude with the rule [r] of the list [before ++ r :: after], from
    its match [Hs] and the failure of the rules before it. *)
Ltac by_rule before r after Hs :=
  etrans;
  [ eapply (firstCapture_at before r after);
    [by repeat constructor | exact Hs]
  | by rewrite string_of_list_ascii_of_string ].

(** C6. The identifier extractor of both scripts returns the capture of the
    first rule, in the order job-view path, [currentJobId=] parameter,
    [jobPostingId=] or [jobPostingId:] field and, in the zip installer's
    script, quoted [jobPostingId] field, that matches its input, and [null]
    when no rule matches.  For every text of a supported shape it returns
    the embedded number, whatever stands before and behind it, provided the
    number stands at the first place where the opening text of its rule is
    followed by a digit and no rule that goes before finds such a place of
    its own; it returns [null] for every text that has no such place for any
    rule.  It returns ["123456"] on ["https://x/jobs/view/123456"] and
    [null] on ["https://x/jobs/search"].  The extractor is a function of
    its input alone: it reads and changes no state. *)
Theorem extractJobId_first_matching_rule :
  (∀ url,
     first_matching_rule [rule_view; rule_current; rule_posting; rule_field]
       url (Installer.extractJobId url) ∧
     first_matching_rule [rule_view; rule_current; rule_posting]
       url (ExeInstaller.extractJobId url)) ∧
  (∀ pre d rest,
     isNumber d = true → startsWithDigit rest = false →
     let url := pre +:+ "/jobs/view/" +:+ d +:+ rest in
     firstDigitAfter "/jobs/view/" pre url →
     Installer.extractJobId url = Some d ∧ ExeInstaller.extractJobId url = Some d) ∧
  (∀ pre d rest,
     isNumber d = true → startsWithDigit rest = false →
     let url := pre +:+ "currentJobId=" +:+ d +:+ rest in
     firstDigitAfter "currentJobId=" pre url →
     noDigitAfter "/jobs/view/" url →
     Installer.extractJobId url = Some d ∧ ExeInstaller.extractJobId url = Some d) ∧
  (∀ pre sep d rest,
     isNumber d = true → startsWithDigit rest = false →
     sep = "=" ∨ sep = ":" →
     let url := pre +:+ "jobPostingId" +:+ sep +:+ d +:+ rest in
     firstDigitAfter "jobPostingId=" pre url →
     firstDigitAfter "jobPostingId:" pre url →
     noDigitAfter "/jobs/view/" url → noDigitAfter "currentJobId=" url →
     Installer.extractJobId url = Some d ∧ ExeInstaller.extractJobId url = Some d) ∧
  (∀ pre d rest,
     isNumber d = true →
     let url := pre +:+ quotedField +:+ d +:+ closingQuote +:+ rest in
     (∀ a, quotedAt a url → (String.length pre ≤ String.length a)%nat) →
     noDigitAfter "/jobs/view/" url → noDigitAfter "currentJobId=" url →
     noDigitAfter "jobPostingId=" url → noDigitAfter "jobPostingId:" url →
     Installer.extractJobId url = Some d) ∧
  (∀ url,
     noDigitAfter "/jobs/view/" url → noDigitAfter "currentJobId=" url →
     noDigitAfter "jobPostingId=" url → noDigitAfter "jobPostingId:" url →
     ExeInstaller.extractJobId url = None ∧
     ((∀ a, ¬ quotedAt a url) → Installer.extractJobId url = None)) ∧
  Installer.extractJobId "https://x/jobs/view/123456" = Some "123456" ∧
  ExeInstaller.extractJobId "https://x/jobs/view/123456" = Some "123456" ∧
  Installer.extractJobId "https://x/jobs/search" = None ∧
  ExeInstaller.extractJobId "https://x/jobs/search" = None.
Proof.
  split; [|split; [|split; [|split; [|split; [|split]]]]].
  - intros url. split; apply firstCapture_spec.
  - intros pre d rest Hd Hrest url Hfirst.
    assert (Hs : search rule_view (chars url) = Some [chars d]).
    { apply (search_first _ url pre (chars ("/jobs/view/" +:+ d +:+ rest))).
      - unfold url. by rewrite list_ascii_of_string_app.
      - change rule_view with (lit "/jobs/view/" ++ Digits1 :: []).
        apply (match_number _ "/jobs/view/" d rest); try done. apply single_lit.
      - apply (before_first _ ["/jobs/view/"]); [apply view_places|].
        by intros m ->%list_elem_of_singleton. }
    unfold Installer.extractJobId, ExeInstaller.extractJobId.
    split.
    + by_rule (@nil regex) rule_view [rule_current; rule_posting; rule_field] Hs.
    + by_rule (@nil regex) rule_view [rule_current; rule_posting] Hs.
  - intros pre d rest Hd Hrest url Hfirst Hview%view_nowhere.
    assert (Hs : search rule_current (chars url) = Some [chars d]).
    { apply (search_first _ url pre (chars ("currentJobId=" +:+ d +:+ rest))).
      - unfold url. by rewrite list_ascii_of_string_app.
      - change rule_current with (lit "currentJobId=" ++ Digits1 :: []).
        apply (match_number _ "currentJobId=" d rest); try done. apply single_lit.
      - apply (before_first _ ["currentJobId="]); [apply current_places|].
        by intros m ->%list_elem_of_singleton. }
    unfold Installer.extractJobId, ExeInstaller.extractJobId.
    split.
    + by_rule [rule_view] rule_current [rule_posting; rule_field] Hs.
    + by_rule [rule_view] rule_current [rule_posting] Hs.
  - intros pre sep d rest Hd Hrest Hsep url Hf1 Hf2 Hview%view_nowhere
      Hcur%current_nowhere.
    assert (Hs : search rule_posting (chars url) = Some [chars d]).
    { apply (search_first _ url pre
               (chars (("jobPostingId" +:+ sep) +:+ d +:+ rest))).
      - unfold url. rewrite list_ascii_of_string_app.
        by destruct Hsep as [-> | ->].
      - change rule_posting with
          ((lit "jobPostingId" ++ [OneOf ["="%char; ":"%char]]) ++ Digits1 :: []).
        apply (match_number _ ("jobPostingId" +:+ sep) d rest); try done.
        rewrite list_ascii_of_string_app. apply Forall2_app; [apply single_lit|].
        destruct Hsep as [-> | ->]; by repeat constructor.
      - apply (before_first _ ["jobPostingId="; "jobPostingId:"]);
          [apply posting_places|].
        intros m Hm. apply elem_of_cons in Hm as [->|Hm]; [done|].
        by apply list_elem_of_singleton in Hm as ->. }
    unfold Installer.extractJobId, ExeInstaller.extractJobId.
    split.
    + by_rule [rule_view; rule_current] rule_posting [rule_field] Hs.
    + by_rule [rule_view; rule_current] rule_posting (@nil regex) Hs.
  - intros pre d rest Hd url Hfirst Hview%view_nowhere Hcur%current_nowhere
      Hp1 Hp2.
    pose proof (posting_nowhere url Hp1 Hp2) as Hpost.
    assert (Hs : search rule_field (chars url) = Some [chars d]).
    { apply (search_first _ url pre
               (chars (quotedField +:+ d +:+ closingQuote +:+ rest))).
      - unfold url. by rewrite list_ascii_of_string_app.
      - change rule_field with (lit quotedField ++ Digits1 :: [Chr dq]).
        apply (match_number _ quotedField d (closingQuote +:+ rest)); try done.
        apply single_lit.
      - intros before after E Hlen.
        destruct (match_here rule_field after) as [caps|] eqn:Hm; [|done].
        apply (quoted_place url before after caps E), Hfirst in Hm.
        rewrite length_string_of_list_ascii in Hm. lia. }
    unfold Installer.extractJobId.
    by_rule [rule_view; rule_current; rule_posting] rule_field (@nil regex) Hs.
  - intros url Hview%view_nowhere Hcur%current_nowhere Hp1 Hp2.
    pose proof (posting_nowhere url Hp1 Hp2) as Hpost.
    unfold Installer.extractJobId, ExeInstaller.extractJobId,
      Installer.patterns, ExeInstaller.patterns. simpl.
    rewrite Hview, Hcur, Hpost. split; [done|].
    by intros ->%field_nowhere.
  - repeat split; reflexivity.
Qed.

(** Where a text stands, [firstAt] finds it or an earlier place. *)
Lemma prefix_app (m rest : string) : String.prefix m (m +:+ rest) = true.
Proof.
  induction m as [|c m IH]; simpl; [by destruct rest|].
  by destruct (ascii_dec c c).
Qed.

Lemma firstAt_eq (m url : string) :
  firstAt m url =
  if String.prefix m url then Some 0
  else match url with
       | String _ url' => S <$> firstAt m url'
       | EmptyString => None
       end.
Proof. by destruct url. Qed.

Lemma firstAt_place (m a rest : string) :
  ∃ k, firstAt m (a +:+ m +:+ rest) = Some k ∧ (k ≤ String.length a)%nat.
Proof.
  induction a as [|c a (k & IH & Hk)].
  - exists 0. change ("" +:+ m +:+ rest) with (m +:+ rest).
    by rewrite firstAt_eq, prefix_app.
  - change (String c a +:+ m +:+ rest) with (String c (a +:+ m +:+ rest)).
    rewrite firstAt_eq.
    destruct (String.prefix m (String c (a +:+ m +:+ rest))).
    + exists 0. split; [done|lia].
    + exists (S k). rewrite IH. simpl. split; [done|lia].
Qed.

Lemma firstDigitAfter_check (m pre url : string) :
  match firstAt m url with
  | Some k => (String.length pre <=? k)%nat
  | None => true
  end = true →
  firstDigitAfter m pre url.
Proof.
  intros H a (c & b & -> & _).
  destruct (firstAt_place m a (String c b)) as (k & Hk & Hle).
  rewrite Hk in H. apply Nat.leb_le in H. lia.
Qed.

Lemma noDigitAfter_check (m url : string) :
  firstAt m url = None → noDigitAfter m url.
Proof.
  intros H a (c & b & -> & _).
  destruct (firstAt_place m a (String c b)) as (k & Hk & _). congruence.
Qed.

Lemma quotedAt_check (pre url : string) :
  match firstAt quotedField url with
  | Some k => (String.length pre <=? k)%nat
  | None => true
  end = true →
  ∀ a, quotedAt a url → (String.length pre ≤ String.length a)%nat.
Proof.
  intros H a (d & b & -> & _).
  destruct (firstAt_place quotedField a (d +:+ closingQuote +:+ b))
    as (k & Hk & Hle).
  rewrite Hk in H. apply Nat.leb_le in H. lia.
Qed.

Lemma noQuoted_check (url : string) :
  firstAt quotedField url = None → ∀ a, ¬ quotedAt a url.
Proof.
  intros H a (d & b & -> & _).
  destruct (firstAt_place quotedField a (d +:+ closingQuote +:+ b))
    as (k & Hk & _).
  congruence.
Qed.

(** Witness of [extractJobId_first_matching_rule]: one text of each shape,
    with a digit before the number, and one without any. *)
Lemma extractJobId_first_matching_rule_witness :
  Installer.extractJobId "https://www2.linkedin.com/jobs/view/4242/?trk=a"
    = Some "4242" ∧
  ExeInstaller.extractJobId
    "https://www2.linkedin.com/jobs/search/?geoId=103644278&currentJobId=37"
    = Some "37" ∧
  Installer.extractJobId "urn:li:jobPostingId:915" = Some "915" ∧
  Installer.extractJobId
    ("{" +:+ quotedField +:+ "31" +:+ closingQuote +:+ "}") = Some "31" ∧
  ExeInstaller.extractJobId "https://www2.linkedin.com/jobs/search" = None ∧
  Installer.extractJobId "https://www2.linkedin.com/jobs/search" = None.
Proof.
  destruct extractJobId_first_matching_rule
    as (_ & Hview & Hcur & Hpost & Hfield & Hnone & _).
  split; [|split; [|split; [|split]]].
  - apply (Hview "https://www2.linkedin.com" "4242" "/?trk=a"); [reflexivity..|].
    by apply firstDigitAfter_check.
  - apply (Hcur "https://www2.linkedin.com/jobs/search/?geoId=103644278&"
             "37" ""); [reflexivity..| |].
    + by apply firstDigitAfter_check.
    + by apply noDigitAfter_check.
  - apply (Hpost "urn:li:" ":" "915" ""); [reflexivity..|by right| | | |].
    + by apply firstDigitAfter_check.
    + by apply firstDigitAfter_check.
    + by apply noDigitAfter_check.
    + by apply noDigitAfter_check.
  - apply (Hfield "{" "31" "}"); [reflexivity| | | | |].
    + by apply quotedAt_check.
    + by apply noDigitAfter_check.
    + by apply noDigitAfter_check.
    + by apply noDigitAfter_check.
    + by apply noDigitAfter_check.
  - destruct (Hnone "https://www2.linkedin.com/jobs/search") as [HE HI];
      [by apply noDigitAfter_check..|].
    split; [exact HE|]. apply HI. by apply noQuoted_check.
Defined.

(** The order of the rules breaks ties: a job-view path wins over a
    [currentJobId] parameter that stands before it. *)
Example extractJobId_tie_break :
  Installer.extractJobId "https://x/jobs/search/?currentJobId=5&next=/jobs/view/7"
  = Some "7".
Proof. reflexivity. Qed.

(** ** Harvesting *)

Section Harvest.

Variable formatDate : value → string.

Lemma match_here_caps r s caps :
  match_here r s = Some caps → Forall (λ cap, cap ≠ []) caps.
Proof.
  revert s caps. induction r as [|a r IH]; intros s caps.
  - intros [= <-]. constructor.
  - destruct a as [c|cs|].
    + destruct s as [|d s]; simpl; [done|].
      destruct (Ascii.eqb c d); [apply IH|done].
    + destruct s as [|d s]; simpl; [done|].
      destruct (accepts cs d); [apply IH|done].
    + revert caps. induction s as [|d s IHs]; intros caps; [done|].
      change (match_here (Digits1 :: r) (d :: s)) with
        (if isDigit d then
           match match_here (Digits1 :: r) s with
           | Some (cap :: caps) => Some ((d :: cap) :: caps)
           | _ => match match_here r s with
                  | Some caps => Some ([d] :: caps)
                  | None => None
                  end
           end
         else None).
      destruct (isDigit d); [|done].
      destruct (match_here (Digits1 :: r) s) as [[|cap caps']|] eqn:E.
      * destruct (match_here r s) eqn:E'; [|done]. intros [= <-].
        constructor; [done|by eapply IH].
      * intros [= <-]. specialize (IHs _ eq_refl).
        inversion IHs; subst. by constructor.
      * destruct (match_here r s) eqn:E'; [|done]. intros [= <-].
        constructor; [done|by eapply IH].
Qed.

Lemma captured_truthy ps url jobId :
  firstCapture ps url = Some jobId → truthy (VStr jobId) = true.
Proof.
  destruct (firstCapture_spec ps url) as [(i & r & caps & _ & Hs & _ & ->)|[_ ->]];
    [|done].
  apply search_Some in Hs as (pre & post & _ & Hm%match_here_caps & _).
  destruct Hm as [|cap caps Hcap _]; [done|]. simpl. intros [= <-].
  by destruct cap.
Qed.



End Harvest.

Section HarvestClaims.

Variable formatDate : value → string.

Lemma get_truthy v name : truthy v = true → get v name = Ok (get_opt v name).
Proof. by destruct v. Qed.

Lemma Installer_select_unrecognized data :
  unrecognized data = true →
  (∃ e, Installer.selectJobs data = Throw e) ∨
  (∃ v, Installer.selectJobs data = Ok v ∧ isArray v = false) ∨
  Installer.selectJobs data = Ok (VArr 0%N []).
Proof.
  unfold unrecognized, or_else. intros H.
  apply andb_prop in H as [H Hid]. apply andb_prop in H as [H Harr].
  apply andb_prop in H as [Hel Hnest].
  apply negb_true_iff in Hel, Hnest, Harr, Hid.
  destruct data as [| | | | |a xs|a fs];
    [by left; exists TypeError|by left; exists TypeError|by right; right..|done|].
  unfold Installer.selectJobs. simpl in *.
  revert Hel Hnest Hid.
  generalize (default VUndef (assoc "elements" fs)),
    (default VUndef (assoc "data" fs)),
    (default VUndef (assoc "jobPostingId" fs)),
    (default VUndef (assoc "entityUrn" fs)).
  intros E D P U Hel Hnest Hid.
  destruct (truthy E) eqn:HE.
  { right; left. by exists E. }
  destruct (truthy D) eqn:HD.
  - rewrite (get_truthy D) by done. simpl.
    destruct (truthy (get_opt D "elements")) eqn:HN.
    + right; left. by exists (get_opt D "elements").
    + destruct (truthy P) eqn:HP; [simpl in Hid; congruence|]. by right; right.
  - simpl. rewrite HD.
    destruct (truthy P) eqn:HP; [simpl in Hid; congruence|]. by right; right.
Qed.

Lemma Installer_unrecognized data m :
  unrecognized data = true →
  (Installer.processJobData_try formatDate data m).1 = m.
Proof.
  intros H. unfold Installer.processJobData_try.
  destruct (Installer_select_unrecognized data H) as [[e ->]|[(v & -> & Hv)| ->]];
    try done.
  by destruct v.
Qed.

Lemma ExeInstaller_store_unrecognized data m :
  unrecognized data = true →
  ExeInstaller.storeJob formatDate data m = (m, Ok ()) ∨
  ∃ e, ExeInstaller.storeJob formatDate data m = (m, Throw e).
Proof.
  unfold unrecognized, or_else. intros H.
  apply andb_prop in H as [H Hid]. apply negb_true_iff in Hid. clear H.
  unfold ExeInstaller.storeJob.
  destruct data as [| | | | |a xs|a fs];
    [by right; exists TypeError|by right; exists TypeError|by left..|].
  simpl in *. revert Hid.
  generalize (default VUndef (assoc "jobPostingId" fs)),
    (default VUndef (assoc "entityUrn" fs)).
  intros P U Hid. unfold or_else.
  destruct (truthy P) eqn:HP; [simpl in Hid; congruence|].
  destruct (truthy U); [done|]. by left.
Qed.

Lemma ExeInstaller_unrecognized data m :
  unrecognized data = true →
  (ExeInstaller.processJobData_try formatDate data m).1 = m.
Proof.
  intros H. unfold ExeInstaller.processJobData_try.
  assert (Hsel : (∃ e, ExeInstaller.selectJobs data = Throw e) ∨
    (∃ v, ExeInstaller.selectJobs data = Ok v ∧ isArray v = false) ∨
    ExeInstaller.selectJobs data = Ok (VArr 0%N [data])).
  { clear m. revert H. unfold unrecognized, or_else. intros H.
    apply andb_prop in H as [H Hid]. apply andb_prop in H as [H Harr].
    apply andb_prop in H as [Hel Hnest].
    apply negb_true_iff in Hel, Hnest, Harr, Hid.
    destruct data as [| | | | |a xs|a fs];
      [by left; exists TypeError|by left; exists TypeError|by right; right..|done|].
    unfold ExeInstaller.selectJobs. simpl in *.
    revert Hel Hnest.
    generalize (default VUndef (assoc "elements" fs)),
      (default VUndef (assoc "data" fs)).
    intros E D Hel Hnest.
    destruct (truthy E) eqn:HE.
    { right; left. by exists E. }
    destruct (truthy D) eqn:HD.
    - rewrite (get_truthy D) by done. simpl.
      destruct (truthy (get_opt D "elements")) eqn:HN.
      + right; left. by exists (get_opt D "elements").
      + by right; right.
    - simpl. rewrite HD. by right; right. }
  destruct Hsel as [[e ->]|[(v & -> & Hv)| ->]]; try done.
  - by destruct v.
  - simpl. by destruct (ExeInstaller_store_unrecognized data m H) as [->|[e ->]].
Qed.
Lemma Installer_set_jobData_id s : Installer.set_jobData (Installer.jobData s) s = s.
Proof. by destruct s. Qed.

Lemma ExeInstaller_set_jobData_id s :
  ExeInstaller.set_jobData (ExeInstaller.jobData s) s = s.
Proof. by destruct s. Qed.

Lemma Installer_set_jobData_twice m m' s :
  Installer.set_jobData m' (Installer.set_jobData m s) = Installer.set_jobData m' s.
Proof. done. Qed.

Lemma ExeInstaller_set_jobData_twice m m' s :
  ExeInstaller.set_jobData m' (ExeInstaller.set_jobData m s)
  = ExeInstaller.set_jobData m' s.
Proof. done. Qed.

Lemma Installer_set_decoding_id s :
  Installer.set_decoding (Installer.decoding s) s = s.
Proof. by destruct s. Qed.

Lemma ExeInstaller_set_decoding_id s :
  ExeInstaller.set_decoding (ExeInstaller.decoding s) s = s.
Proof. by destruct s. Qed.

Lemma clones_none endpoint args o : clones endpoint 0 args o = [].
Proof. unfold clones. by repeat case_match. Qed.

Lemma clones_next endpoint n args o :
  clones endpoint (S n) args o =
  clones endpoint n args o ++
  match default VUndef (head args), o with
  | VStr url, Resolved resp =>
      if includes endpoint url && resp_ok resp then [resp_json resp n] else []
  | _, _ => []
  end.
Proof.
  unfold clones. repeat case_match; try done.
  by rewrite seq_S, map_app.
Qed.

(** However many wrappers are installed, a call reaches the native
    primitive once and returns what it returned; each wrapper has started
    one decoding when the response is one it harvests. *)
Lemma Installer_windowFetch_clones {W} (native : list value → W → outcome * W)
    n args w s :
  Installer.windowFetch native n args (w, s) =
  ((native args w).1,
   ((native args w).2,
    Installer.set_decoding
      (Installer.decoding s ++ clones Installer.endpoint n args (native args w).1)
      s)).
Proof.
  induction n as [|n IH].
  - simpl. rewrite clones_none, app_nil_r, Installer_set_decoding_id.
    by destruct (native args w).
  - change (Installer.windowFetch native (S n))
      with (Installer.wrapper n (Installer.windowFetch native n)).
    unfold Installer.wrapper. rewrite IH, clones_next.
    destruct (native args w) as [o w']. simpl.
    destruct (default VUndef (head args)) as [| | | |url| |];
      rewrite ?app_nil_r; try done.
    destruct (includes Installer.endpoint url) eqn:Hurl;
      [|by destruct o; rewrite ?app_nil_r].
    destruct o as [resp|reason]; simpl; [|by rewrite app_nil_r].
    unfold Installer.onResponse. simpl.
    destruct (resp_ok resp); simpl; [|by rewrite app_nil_r].
    by rewrite (assoc_L (++)).
Qed.

Lemma ExeInstaller_windowFetch_clones {W}
    (native : list value → W → outcome * W) n args w s :
  ExeInstaller.windowFetch native n args (w, s) =
  ((native args w).1,
   ((native args w).2,
    ExeInstaller.set_decoding
      (ExeInstaller.decoding s ++
       clones ExeInstaller.endpoint n args (native args w).1)
      s)).
Proof.
  induction n as [|n IH].
  - simpl. rewrite clones_none, app_nil_r, ExeInstaller_set_decoding_id.
    by destruct (native args w).
  - change (ExeInstaller.windowFetch native (S n))
      with (ExeInstaller.wrapper n (ExeInstaller.windowFetch native n)).
    unfold ExeInstaller.wrapper. rewrite IH, clones_next.
    destruct (native args w) as [o w']. simpl.
    destruct (default VUndef (head args)) as [| | | |url| |];
      rewrite ?app_nil_r; try done.
    destruct (includes ExeInstaller.endpoint url) eqn:Hurl;
      [|by destruct o; rewrite ?app_nil_r].
    destruct o as [resp|reason]; simpl; [|by rewrite app_nil_r].
    unfold ExeInstaller.onResponse. simpl.
    destruct (resp_ok resp); simpl; [|by rewrite app_nil_r].
    by rewrite (assoc_L (++)).
Qed.

(** The settling of a decoding changes the cache at most. *)
Lemma Installer_onDecoded_frame d s :
  ∃ m, Installer.onDecoded formatDate d s = Installer.set_jobData m s.
Proof.
  destruct d as [data|]; simpl.
  - by eexists.
  - exists (Installer.jobData s). by rewrite Installer_set_jobData_id.
Qed.

Lemma ExeInstaller_onDecoded_frame d s :
  ∃ m, ExeInstaller.onDecoded formatDate d s = ExeInstaller.set_jobData m s.
Proof.
  destruct d as [data|]; simpl.
  - by eexists.
  - exists (ExeInstaller.jobData s). by rewrite ExeInstaller_set_jobData_id.
Qed.

Lemma Installer_onDecoded_decoding d ds s :
  Installer.onDecoded formatDate d (Installer.set_decoding ds s)
  = Installer.set_decoding ds (Installer.onDecoded formatDate d s).
Proof. by destruct d. Qed.

Lemma ExeInstaller_onDecoded_decoding d ds s :
  ExeInstaller.onDecoded formatDate d (ExeInstaller.set_decoding ds s)
  = ExeInstaller.set_decoding ds (ExeInstaller.onDecoded formatDate d s).
Proof. by destruct d. Qed.

Lemma drop_nth_middle {A} (xs ys : list A) (y : A) :
  drop_nth (length xs) (xs ++ y :: ys) = xs ++ ys.
Proof.
  unfold drop_nth. rewrite take_app_length.
  by rewrite (drop_app_length' xs (y :: ys) (S (length xs - length xs)))
    || (rewrite drop_app_ge by lia;
        replace (S (length xs) - length xs) with 1 by lia).
Qed.

(** The decodings a call has started settle in turn: each is harvested on
    the state the one before has left. *)
Lemma Installer_settle_started ds s :
  Installer.settle formatDate (length (Installer.decoding s))
    (Installer.set_decoding (Installer.decoding s ++ ds) s)
  = foldl (λ s d, Installer.onDecoded formatDate d s) s ds.
Proof.
  revert s. induction ds as [|d ds IH]; intros s.
  - unfold Installer.settle. simpl. rewrite app_nil_r, Nat.sub_diag. simpl.
    apply Installer_set_decoding_id.
  - unfold Installer.settle. cbn [Installer.decoding Installer.set_decoding].
    rewrite length_app. cbn [length].
    replace (length (Installer.decoding s) + S (length ds)
             - length (Installer.decoding s)) with (S (length ds)) by lia.
    rewrite Nat.iter_succ_r.
    assert (Hd : Installer.decoded formatDate (length (Installer.decoding s))
                   (Installer.set_decoding (Installer.decoding s ++ d :: ds) s)
                 = Installer.set_decoding
                     (Installer.decoding (Installer.onDecoded formatDate d s) ++ ds)
                     (Installer.onDecoded formatDate d s)).
    { unfold Installer.decoded. cbn [Installer.decoding Installer.set_decoding].
      rewrite lookup_app_r, Nat.sub_diag by done. cbn [lookup list_lookup].
      rewrite drop_nth_middle, Installer_onDecoded_decoding.
      by destruct d. }
    rewrite Hd. cbn [foldl]. rewrite <- IH. unfold Installer.settle.
    cbn [Installer.decoding Installer.set_decoding].
    rewrite length_app.
    replace (length (Installer.decoding (Installer.onDecoded formatDate d s))
             + length ds
             - length (Installer.decoding (Installer.onDecoded formatDate d s)))
      with (length ds) by lia.
    by destruct d.
Qed.

Lemma ExeInstaller_settle_started ds s :
  ExeInstaller.settle formatDate (length (ExeInstaller.decoding s))
    (ExeInstaller.set_decoding (ExeInstaller.decoding s ++ ds) s)
  = foldl (λ s d, ExeInstaller.onDecoded formatDate d s) s ds.
Proof.
  revert s. induction ds as [|d ds IH]; intros s.
  - unfold ExeInstaller.settle. simpl. rewrite app_nil_r, Nat.sub_diag. simpl.
    apply ExeInstaller_set_decoding_id.
  - unfold ExeInstaller.settle.
    cbn [ExeInstaller.decoding ExeInstaller.set_decoding].
    rewrite length_app. cbn [length].
    replace (length (ExeInstaller.decoding s) + S (length ds)
             - length (ExeInstaller.decoding s)) with (S (length ds)) by lia.
    rewrite Nat.iter_succ_r.
    assert (Hd : ExeInstaller.decoded formatDate (length (ExeInstaller.decoding s))
                   (ExeInstaller.set_decoding (ExeInstaller.decoding s ++ d :: ds) s)
                 = ExeInstaller.set_decoding
                     (ExeInstaller.decoding (ExeInstaller.onDecoded formatDate d s)
                      ++ ds)
                     (ExeInstaller.onDecoded formatDate d s)).
    { unfold ExeInstaller.decoded.
      cbn [ExeInstaller.decoding ExeInstaller.set_decoding].
      rewrite lookup_app_r, Nat.sub_diag by done. cbn [lookup list_lookup].
      rewrite drop_nth_middle, ExeInstaller_onDecoded_decoding.
      by destruct d. }
    rewrite Hd. cbn [foldl]. rewrite <- IH. unfold ExeInstaller.settle.
    cbn [ExeInstaller.decoding ExeInstaller.set_decoding].
    rewrite length_app.
    replace (length (ExeInstaller.decoding (ExeInstaller.onDecoded formatDate d s))
             + length ds
             - length (ExeInstaller.decoding (ExeInstaller.onDecoded formatDate d s)))
      with (length ds) by lia.
    by destruct d.
Qed.

(** A call of [window.fetch]: the outcome and the host are those of the
    native primitive, and the state is the one the harvest of each started
    decoding leaves, in turn. *)
Lemma Installer_callFetch_cases {W} (native : list value → W → outcome * W)
    args w s :
  Installer.callFetch formatDate native args (w, s) =
  ((native args w).1,
   ((native args w).2,
    foldl (λ s d, Installer.onDecoded formatDate d s) s
      (clones Installer.endpoint (Installer.fetchWrappers s) args
         (native args w).1))).
Proof.
  unfold Installer.callFetch. cbn [snd].
  rewrite Installer_windowFetch_clones.
  by rewrite Installer_settle_started.
Qed.

Lemma ExeInstaller_callFetch_cases {W} (native : list value → W → outcome * W)
    args w s :
  ExeInstaller.callFetch formatDate native args (w, s) =
  ((native args w).1,
   ((native args w).2,
    foldl (λ s d, ExeInstaller.onDecoded formatDate d s) s
      (clones ExeInstaller.endpoint (ExeInstaller.fetchWrappers s) args
         (native args w).1))).
Proof.
  unfold ExeInstaller.callFetch. cbn [snd].
  rewrite ExeInstaller_windowFetch_clones.
  by rewrite ExeInstaller_settle_started.
Qed.

(** C1. The function installed over [window.fetch] calls the function it
    wraps with the arguments it received and returns the outcome of that
    call, for every call and whatever the interception does with the
    response (skipped, decoded and stored, decoding rejected, or an error
    raised and caught while storing); with any number of wrappers installed
    the native primitive is reached with the same arguments, acts on the host
    as it would have alone, and its outcome is what the caller receives.
    For a call whose first argument is not a string containing the endpoint
    signature the wrapper is the wrapped function.  Both scripts. *)
Theorem fetch_wrapper_transparent :
  (∀ (W : Type) k originalFetch args (ws : W * Installer.state),
     (Installer.wrapper k originalFetch args ws).1
       = (originalFetch args ws).1 ∧
     (Installer.wrapper k originalFetch args ws).2.1
       = (originalFetch args ws).2.1) ∧
  (∀ (W : Type) k originalFetch args (ws : W * ExeInstaller.state),
     (ExeInstaller.wrapper k originalFetch args ws).1
       = (originalFetch args ws).1 ∧
     (ExeInstaller.wrapper k originalFetch args ws).2.1
       = (originalFetch args ws).2.1) ∧
  (∀ (W : Type) (native : list value → W → outcome * W) args w s,
     let r := Installer.callFetch formatDate native args (w, s) in
     (r.1, r.2.1) = native args w) ∧
  (∀ (W : Type) (native : list value → W → outcome * W) args w s,
     let r := ExeInstaller.callFetch formatDate native args (w, s) in
     (r.1, r.2.1) = native args w) ∧
  (∀ (W : Type) k originalFetch args (ws : W * Installer.state),
     offTarget Installer.endpoint args →
     Installer.wrapper k originalFetch args ws = originalFetch args ws) ∧
  (∀ (W : Type) k originalFetch args (ws : W * ExeInstaller.state),
     offTarget ExeInstaller.endpoint args →
     ExeInstaller.wrapper k originalFetch args ws = originalFetch args ws).
Proof.
  repeat apply conj.
  - intros W k f args ws. unfold Installer.wrapper.
    destruct (f args ws) as [o [w s]]. simpl.
    destruct (default VUndef (head args)); try done.
    destruct (includes Installer.endpoint s0); [|done].
    destruct o as [resp|reason]; [|done]. simpl.
    unfold Installer.onResponse. by destruct (resp_ok resp).
  - intros W k f args ws. unfold ExeInstaller.wrapper.
    destruct (f args ws) as [o [w s]]. simpl.
    destruct (default VUndef (head args)); try done.
    destruct (includes ExeInstaller.endpoint s0); [|done].
    destruct o as [resp|reason]; [|done]. simpl.
    unfold ExeInstaller.onResponse. by destruct (resp_ok resp).
  - intros W native args w s r. unfold r.
    rewrite Installer_callFetch_cases. simpl. by destruct (native args w).
  - intros W native args w s r. unfold r.
    rewrite ExeInstaller_callFetch_cases. simpl. by destruct (native args w).
  - intros W k f args ws Hoff. unfold Installer.wrapper.
    destruct args as [|[] args]; simpl; try done.
    by rewrite (Hoff s).
  - intros W k f args ws Hoff. unfold ExeInstaller.wrapper.
    destruct args as [|[] args]; simpl; try done.
    by rewrite (Hoff s).
Qed.




Lemma foldl_fixed {A B} (f : A → B → A) (a : A) (bs : list B) :
  Forall (λ b, f a b = a) bs → foldl f a bs = a.
Proof. induction 1 as [|b bs Hb _ IH]; simpl; [done|by rewrite Hb]. Qed.

(** C8. In both scripts a payload of no recognised shape leaves the cache,
    and the whole state, as it was; the error the script may raise on it is
    caught inside [processJobData].  The continuation attached to the
    response returns the response, and the state is as it was once the
    decoding it started has settled to such a payload; a call of
    [window.fetch] that the native primitive resolves with a response whose
    decodings settle to such payloads returns the native outcome and leaves
    the state unchanged, however many wrappers are installed. *)
Theorem unrecognized_payload_ignored :
  (∀ data, unrecognized data = true →
     (∀ s, Installer.processJobData formatDate data s = s) ∧
     (∀ s, ExeInstaller.processJobData formatDate data s = s) ∧
     (∀ k resp s, resp_json resp k = Some data →
        (Installer.onResponse k resp s).1 = resp ∧
        Installer.settle formatDate (length (Installer.decoding s))
          (Installer.onResponse k resp s).2 = s) ∧
     (∀ k resp s, resp_json resp k = Some data →
        (ExeInstaller.onResponse k resp s).1 = resp ∧
        ExeInstaller.settle formatDate (length (ExeInstaller.decoding s))
          (ExeInstaller.onResponse k resp s).2 = s)) ∧
  (∀ (W : Type) (native : list value → W → outcome * W) args w s resp,
     (native args w).1 = Resolved resp →
     (∀ k, k < Installer.fetchWrappers s →
        ∃ data, resp_json resp k = Some data ∧ unrecognized data = true) →
     Installer.callFetch formatDate native args (w, s)
     = (Resolved resp, ((native args w).2, s))) ∧
  (∀ (W : Type) (native : list value → W → outcome * W) args w s resp,
     (native args w).1 = Resolved resp →
     (∀ k, k < ExeInstaller.fetchWrappers s →
        ∃ data, resp_json resp k = Some data ∧ unrecognized data = true) →
     ExeInstaller.callFetch formatDate native args (w, s)
     = (Resolved resp, ((native args w).2, s))).
Proof.
  assert (HI : ∀ data, unrecognized data = true →
            ∀ s, Installer.processJobData formatDate data s = s).
  { intros data Hdata s. unfold Installer.processJobData.
    rewrite Installer_unrecognized by done. apply Installer_set_jobData_id. }
  assert (HE : ∀ data, unrecognized data = true →
            ∀ s, ExeInstaller.processJobData formatDate data s = s).
  { intros data Hdata s. unfold ExeInstaller.processJobData.
    rewrite ExeInstaller_unrecognized by done. apply ExeInstaller_set_jobData_id. }
  repeat apply conj.
  - intros data Hdata. repeat apply conj.
    + by apply HI.
    + by apply HE.
    + intros k resp s Hj. unfold Installer.onResponse.
      destruct (resp_ok resp); simpl.
      * split; [done|]. rewrite Installer_settle_started, Hj. simpl.
        by apply HI.
      * split; [done|]. unfold Installer.settle. by rewrite Nat.sub_diag.
    + intros k resp s Hj. unfold ExeInstaller.onResponse.
      destruct (resp_ok resp); simpl.
      * split; [done|]. rewrite ExeInstaller_settle_started, Hj. simpl.
        by apply HE.
      * split; [done|]. unfold ExeInstaller.settle. by rewrite Nat.sub_diag.
  - intros W native args w s resp Hn Hj.
    rewrite Installer_callFetch_cases, Hn. do 2 f_equal.
    apply foldl_fixed. unfold clones.
    destruct (default VUndef (head args)); try done.
    destruct (_ && _); [|done].
    apply Forall_map, Forall_forall. intros k Hk%elem_of_seq. simpl.
    destruct (Hj k) as (data & -> & Hdata); [lia|]. simpl. by apply HI.
  - intros W native args w s resp Hn Hj.
    rewrite ExeInstaller_callFetch_cases, Hn. do 2 f_equal.
    apply foldl_fixed. unfold clones.
    destruct (default VUndef (head args)); try done.
    destruct (_ && _); [|done].
    apply Forall_map, Forall_forall. intros k Hk%elem_of_seq. simpl.
    destruct (Hj k) as (data & -> & Hdata); [lia|]. simpl. by apply HE.
Qed.




End HarvestClaims.

(** ** The presenter and the lifecycle *)

Section Presenter.

(** [querySelectorAll(...).forEach(el => el.remove())] detaches every
    panel. *)
Lemma detach_each (els acc : list element) (e : element) :
  e ∈ foldr (λ el acc, detach (el_id el) acc) acc els ↔
  e ∈ acc ∧ el_id e ∉ (el_id <$> els).
Proof.
  induction els as [|x els IH]; simpl.
  - split; [|by intros []]. intros H. split; [done|]. apply not_elem_of_nil.
  - unfold detach at 1. rewrite list_elem_of_filter, IH, not_elem_of_cons.
    tauto.
Qed.

Lemma Installer_removeExistingTooltip_eq s :
  Installer.removeExistingTooltip s = Installer.set_tooltip None [] s.
Proof.
  unfold Installer.removeExistingTooltip. f_equal.
  apply elem_of_nil_inv. intros e [He Hid]%detach_each.
  apply Hid, list_elem_of_fmap. by exists e.
Qed.

(** [showJobInsightsForId] on an identifier the cache holds: the panel of
    that job is the only one attached, and its timer is armed when the
    layout anchor exists. *)
Lemma Installer_show_hit jobId info s :
  Installer.jobData s !! KStr jobId = Some info →
  ∃ style,
    Installer.showJobInsightsForId jobId s =
    (Installer.set_timers
       (Installer.timers s ++
        match anchor (Installer.view s) with
        | Some _ => [Installer.TDismiss (Installer.nextId s)]
        | None => []
        end)
       (Installer.set_nextId (S (Installer.nextId s))
          (Installer.set_tooltip (Some (Installer.nextId s))
             [{| el_id := Installer.nextId s; el_rows := Installer.rows info;
                 el_style := style |}] s)),
     match anchor (Installer.view s) with
     | Some _ => Ok ()
     | None => Throw TypeError
     end).
Proof.
  intros Hget. unfold Installer.showJobInsightsForId. rewrite Hget.
  rewrite Installer_removeExistingTooltip_eq. simpl.
  destruct (anchor (Installer.view s)) as [rect|]; simpl.
  - by eexists.
  - exists None. f_equal. unfold Installer.set_timers. simpl.
    by rewrite app_nil_r.
Qed.

Lemma Installer_show_miss jobId s :
  Installer.jobData s !! KStr jobId = None →
  Installer.showJobInsightsForId jobId s = (s, Ok ()).
Proof. intros H. unfold Installer.showJobInsightsForId. by rewrite H. Qed.

(** [showJobInsights] either leaves the state alone or is
    [showJobInsightsForId] on some identifier. *)
Lemma Installer_showJobInsights_cases jobCard s :
  Installer.showJobInsights jobCard s = (s, Ok ()) ∨
  ∃ jobId, Installer.showJobInsights jobCard s
           = Installer.showJobInsightsForId jobId s.
Proof.
  unfold Installer.showJobInsights.
  repeat case_match; by eauto.
Qed.

Lemma Installer_runTimer_cases t s :
  Installer.runTimer t s = (s, Ok ()) ∨
  (∃ jobId, Installer.runTimer t s = Installer.showJobInsightsForId jobId s) ∨
  (∃ tooltip, t = Installer.TDismiss tooltip ∧
     Installer.currentTooltip s = Some tooltip ∧
     Installer.runTimer t s = (Installer.set_tooltip None [] s, Ok ())).
Proof.
  destruct t as [jobCard|url|tooltip]; simpl.
  - destruct (Installer_showJobInsights_cases jobCard s) as [->|[jobId ->]]; eauto.
  - case_match; eauto.
  - case_decide; [|by left]. right; right. exists tooltip.
    by rewrite Installer_removeExistingTooltip_eq.
Qed.

Variable formatDate : value → string.

Lemma single_panel_detach t els current :
  single_panel els current → single_panel (detach t els) current.
Proof.
  intros [->|(e & -> & Hc)]; [by left|].
  unfold detach. rewrite filter_cons, filter_nil.
  case_decide; [right; by exists e|by left].
Qed.

(** A call of [fetch], the answer of the network and the settling of a
    decoding change the cache and the lists of pending promises at most. *)
Lemma Installer_step_network e s :
  Installer_network e →
  ∃ m cs ds,
    Installer.step formatDate e s
    = Installer.set_jobData m (Installer.set_decoding ds (Installer.set_calls cs s)).
Proof.
  destruct e as [| |args|i o|j| | | | | |]; try done; intros _.
  - exists (Installer.jobData s),
      (Installer.calls s ++ [(args, Installer.fetchWrappers s)]),
      (Installer.decoding s).
    by destruct s.
  - simpl. destruct (Installer.calls s !! i) as [[args n]|].
    + rewrite Installer_windowFetch_clones. simpl.
      exists (Installer.jobData s), (drop_nth i (Installer.calls s)),
        (Installer.decoding s ++ clones Installer.endpoint n args o).
      by destruct s.
    + exists (Installer.jobData s), (Installer.calls s), (Installer.decoding s).
      by destruct s.
  - simpl. unfold Installer.decoded.
    destruct (Installer.decoding s !! j) as [d|].
    + destruct (Installer_onDecoded_frame formatDate d
                  (Installer.set_decoding (drop_nth j (Installer.decoding s)) s))
        as [m ->].
      exists m, (Installer.calls s), (drop_nth j (Installer.decoding s)).
      by destruct s.
    + exists (Installer.jobData s), (Installer.calls s), (Installer.decoding s).
      by destruct s.
Qed.

(** Conclude for the three events of a call of [fetch] from the fields
    they leave alone. *)
Ltac by_network s :=
  match goal with
  | |- context [Installer.step _ ?e s] =>
      destruct (Installer_step_network e s I) as (?m & ?cs & ?ds & ->)
  end.


(** Only [init] and [destroy] touch the wrapper count and the flag. *)
Lemma Installer_step_controls e s :
  e ≠ Installer.EInit → e ≠ Installer.EDestroy →
  Installer.fetchWrappers (Installer.step formatDate e s) = Installer.fetchWrappers s ∧
  Installer.isInitialized (Installer.step formatDate e s) = Installer.isInitialized s.
Proof.
  intros Hi Hd. destruct e as [| |args|k o|k|[jobCard|]|t|href|v| |i]; try done;
    try (by by_network s).
  - simpl. destruct (Installer.timers s !! i) as [t|]; [|done].
    set (s0 := Installer.set_timers _ s).
    destruct (Installer_runTimer_cases t s0)
      as [->|[[jobId ->]|(tooltip & _ & _ & ->)]]; try done.
    destruct (Installer.jobData s0 !! KStr jobId) as [info|] eqn:Hget.
    + by destruct (Installer_show_hit _ _ _ Hget) as [style ->].
    + by rewrite Installer_show_miss.
Qed.


(** The GUI installer's script detaches the current panel only, which
    is every panel when at most the current one is attached. *)
Lemma ExeInstaller_removeExistingTooltip_eq s :
  single_panel (ExeInstaller.overlays s) (ExeInstaller.currentTooltip s) →
  ExeInstaller.removeExistingTooltip s = ExeInstaller.set_tooltip None [] s.
Proof.
  unfold ExeInstaller.removeExistingTooltip.
  intros [Hels|(e & Hels & Hc)].
  - rewrite Hels. destruct s; simpl in *; subst. by case_match.
  - rewrite Hc, Hels. unfold detach.
    rewrite filter_cons, filter_nil. by case_decide.
Qed.

Lemma ExeInstaller_show_cases jobCard s :
  single_panel (ExeInstaller.overlays s) (ExeInstaller.currentTooltip s) →
  ExeInstaller.showJobInsights jobCard s = s ∨
  ∃ jobId info,
    ExeInstaller.jobData s !! KStr jobId = Some info ∧
    or_else (of_attr (attr_job_id jobCard))
      (of_attr (ExeInstaller.extractJobId
                  (str_or (card_href jobCard) (ExeInstaller.location s))))
    = VStr jobId ∧
    ExeInstaller.showJobInsights jobCard s =
    ExeInstaller.set_timers
      (ExeInstaller.timers s ++ [ExeInstaller.TDismiss (ExeInstaller.nextId s)])
      (ExeInstaller.set_nextId (S (ExeInstaller.nextId s))
         (ExeInstaller.set_tooltip (Some (ExeInstaller.nextId s))
            [{| el_id := ExeInstaller.nextId s;
                el_rows := ExeInstaller.rows info; el_style := None |}] s)).
Proof.
  intros Hinv. unfold ExeInstaller.showJobInsights.
  destruct (or_else _ _) as [| | | |jobId| |]; try by left.
  destruct (negb (truthy (VStr jobId))); [by left|].
  destruct (ExeInstaller.jobData s !! KStr jobId) as [info|] eqn:Hget; [|by left].
  right. exists jobId, info. split; [done|]. split; [done|].
  by rewrite ExeInstaller_removeExistingTooltip_eq.
Qed.

Lemma ExeInstaller_step_network e s :
  ExeInstaller_network e →
  ∃ m cs ds,
    ExeInstaller.step formatDate e s
    = ExeInstaller.set_jobData m
        (ExeInstaller.set_decoding ds (ExeInstaller.set_calls cs s)).
Proof.
  destruct e as [|args|i o|j| | | |]; try done; intros _.
  - exists (ExeInstaller.jobData s),
      (ExeInstaller.calls s ++ [(args, ExeInstaller.fetchWrappers s)]),
      (ExeInstaller.decoding s).
    by destruct s.
  - simpl. destruct (ExeInstaller.calls s !! i) as [[args n]|].
    + rewrite ExeInstaller_windowFetch_clones. simpl.
      exists (ExeInstaller.jobData s), (drop_nth i (ExeInstaller.calls s)),
        (ExeInstaller.decoding s ++ clones ExeInstaller.endpoint n args o).
      by destruct s.
    + exists (ExeInstaller.jobData s), (ExeInstaller.calls s),
        (ExeInstaller.decoding s).
      by destruct s.
  - simpl. unfold ExeInstaller.decoded.
    destruct (ExeInstaller.decoding s !! j) as [d|].
    + destruct (ExeInstaller_onDecoded_frame formatDate d
                  (ExeInstaller.set_decoding
                     (drop_nth j (ExeInstaller.decoding s)) s))
        as [m ->].
      exists m, (ExeInstaller.calls s), (drop_nth j (ExeInstaller.decoding s)).
      by destruct s.
    + exists (ExeInstaller.jobData s), (ExeInstaller.calls s),
        (ExeInstaller.decoding s).
      by destruct s.
Qed.

Ltac by_exe_network s :=
  match goal with
  | |- context [ExeInstaller.step _ ?e s] =>
      destruct (ExeInstaller_step_network e s I) as (?m & ?cs & ?ds & ->)
  end.

Lemma ExeInstaller_step_presenter e s :
  single_panel (ExeInstaller.overlays s) (ExeInstaller.currentTooltip s) →
  single_panel (ExeInstaller.overlays (ExeInstaller.step formatDate e s))
    (ExeInstaller.currentTooltip (ExeInstaller.step formatDate e s)).
Proof.
  intros Hinv. destruct e as [|args|k o|k|[jobCard|]|t|href|i];
    try (by by_exe_network s).
  - simpl. unfold ExeInstaller.init. by case_match.
  - done.
  - done.
  - simpl. by apply single_panel_detach.
  - done.
  - simpl. destruct (ExeInstaller.timers s !! i) as [[jobCard|t]|]; [| |done].
    + set (s0 := ExeInstaller.set_timers _ s). simpl.
      destruct (ExeInstaller_show_cases jobCard s0 Hinv)
        as [->|(jobId & info & _ & _ & ->)]; [done|].
      simpl. right. by eexists.
    + simpl. rewrite ExeInstaller_removeExistingTooltip_eq by done. by left.
Qed.

(** The wrapper count and the flag only change in [init]. *)
Lemma ExeInstaller_step_controls e s :
  single_panel (ExeInstaller.overlays s) (ExeInstaller.currentTooltip s) →
  e ≠ ExeInstaller.EInit →
  ExeInstaller.fetchWrappers (ExeInstaller.step formatDate e s)
    = ExeInstaller.fetchWrappers s ∧
  ExeInstaller.isInitialized (ExeInstaller.step formatDate e s)
    = ExeInstaller.isInitialized s.
Proof.
  intros Hinv Hi. destruct e as [|args|k o|k|[jobCard|]|t|href|i]; try done;
    try (by by_exe_network s).
  - simpl. destruct (ExeInstaller.timers s !! i) as [[jobCard|t]|]; [| |done].
    + set (s0 := ExeInstaller.set_timers _ s). simpl.
      by destruct (ExeInstaller_show_cases jobCard s0 Hinv)
        as [->|(jobId & info & _ & _ & ->)].
    + simpl. by rewrite ExeInstaller_removeExistingTooltip_eq.
Qed.


Lemma ExeInstaller_run_presenter es s :
  single_panel (ExeInstaller.overlays s) (ExeInstaller.currentTooltip s) →
  single_panel (ExeInstaller.overlays (ExeInstaller.run formatDate es s))
    (ExeInstaller.currentTooltip (ExeInstaller.run formatDate es s)).
Proof.
  revert s. induction es as [|e es IH]; intros s Hinv; [done|].
  simpl. by apply IH, ExeInstaller_step_presenter.
Qed.


End Presenter.

(** Conclude for the three events of a call of [fetch] from the fields
    they leave alone. *)
Ltac by_network s :=
  match goal with
  | |- context [Installer.step ?f ?e s] =>
      destruct (Installer_step_network f e s I) as (?m & ?cs & ?ds & ->)
  end.

Ltac by_exe_network s :=
  match goal with
  | |- context [ExeInstaller.step ?f ?e s] =>
      destruct (ExeInstaller_step_network f e s I) as (?m & ?cs & ?ds & ->)
  end.

(** ** Teardown and initialisation *)

(** [init(); destroy()] on a fresh page leaves one wrapper around
    [window.fetch], where there was none before [init]. *)
Lemma destroy_leaves_fetch_wrapped :
  ¬ teardown_restores (Installer.new jobsUrl detailsPane)
      (Installer.destroy (Installer.init (Installer.new jobsUrl detailsPane))).
Proof. intros (_ & _ & Hfetch & _). vm_compute in Hfetch. discriminate. Qed.

(** The wrapper left behind still harvests: after [init(); destroy()] a
    response of the endpoint fills the cache again. *)
Example destroy_leaves_harvest_running :
  Installer.jobData
    (Installer.run sampleDate
       [Installer.EInit; Installer.EDestroy;
        Installer.EFetch [VStr voyagerUrl];
        Installer.EAnswer 0 (Resolved sampleResponse); Installer.EDecoded 0]
       (Installer.new jobsUrl detailsPane)) !! KStr "1"
  = Some (Installer.mkJobInfo sampleDate (VStr "1") (sampleJob 3%N "1" 10)).
Proof. vm_compute. reflexivity. Qed.

(** Nor does [destroy()] cancel a call in flight: the response of a call
    the page made before [destroy()] is harvested when it arrives after it,
    and a click then shows a panel although the page has made no call since. *)
Example destroy_spares_call_in_flight :
  let s := Installer.run sampleDate
             [Installer.EInit; Installer.EFetch [VStr voyagerUrl];
              Installer.EDestroy;
              Installer.EAnswer 0 (Resolved sampleResponse); Installer.EDecoded 0;
              Installer.EClick (Some (cardWithId "1")); Installer.EFire 0]
             (Installer.new jobsUrl detailsPane) in
  Installer.isInitialized s = false ∧
  Installer.jobData s !! KStr "1"
  = Some (Installer.mkJobInfo sampleDate (VStr "1") (sampleJob 3%N "1" 10)) ∧
  el_id <$> Installer.overlays s = [0].
Proof. vm_compute. by repeat split. Qed.

(** [init(); destroy(); init()] stacks two wrappers. *)
Lemma init_destroy_init_stacks :
  ¬ never_stacked [Installer.EInit; Installer.EDestroy; Installer.EInit].
Proof.
  intros H. assert (Hall : Forall (λ e, e = Installer.EInit ∨ e = Installer.EDestroy)
                     [Installer.EInit; Installer.EDestroy; Installer.EInit])
    by (repeat constructor; auto).
  specialize (H Hall). vm_compute in H. lia.
Qed.

Section Lifecycle.

Variable formatDate : value → string.

(** C2, amended. After [destroy()] the cache is empty, no panel is attached
    and none is current, the initialised flag is reset and the page-change
    observer, if there is one, is disconnected; the number of wrappers around
    [window.fetch] is what it was before the call. *)
Theorem destroy_clears_cache_and_overlay :
  ∀ s, let s' := Installer.destroy s in
    Installer.jobData s' = ∅ ∧
    Installer.overlays s' = [] ∧
    Installer.currentTooltip s' = None ∧
    Installer.isInitialized s' = false ∧
    Installer.observer s' ≠ Some true ∧
    Installer.fetchWrappers s' = Installer.fetchWrappers s.
Proof.
  intros s s'. unfold s', Installer.destroy.
  rewrite Installer_removeExistingTooltip_eq.
  destruct (Installer.observer s) eqn:E; simpl; rewrite ?E; by repeat split.
Qed.

Lemma Installer_step_one_wrapper e s :
  e ≠ Installer.EDestroy →
  one_wrapper (Installer.fetchWrappers s) (Installer.isInitialized s) →
  one_wrapper (Installer.fetchWrappers (Installer.step formatDate e s))
    (Installer.isInitialized (Installer.step formatDate e s)).
Proof.
  intros Hd [Hle H0].
  assert (e = Installer.EInit ∨ e ≠ Installer.EInit) as [->|Hi]
    by (by destruct e; [left|right..]).
  - simpl. unfold Installer.init.
    destruct (Installer.isInitialized s) eqn:E; [by rewrite E|].
    simpl. rewrite H0 by done. by split.
  - by destruct (Installer_step_controls formatDate e s Hi Hd) as [-> ->].
Qed.

Lemma Installer_run_one_wrapper es s :
  Installer.EDestroy ∉ es →
  one_wrapper (Installer.fetchWrappers s) (Installer.isInitialized s) →
  one_wrapper (Installer.fetchWrappers (Installer.run formatDate es s))
    (Installer.isInitialized (Installer.run formatDate es s)).
Proof.
  revert s. induction es as [|e es IH]; intros s Hd Hinv; [done|].
  apply not_elem_of_cons in Hd as [Hd Hds].
  simpl. apply IH; [done|]. by apply Installer_step_one_wrapper.
Qed.

Lemma ExeInstaller_run_one_wrapper es s :
  single_panel (ExeInstaller.overlays s) (ExeInstaller.currentTooltip s) →
  one_wrapper (ExeInstaller.fetchWrappers s) (ExeInstaller.isInitialized s) →
  one_wrapper (ExeInstaller.fetchWrappers (ExeInstaller.run formatDate es s))
    (ExeInstaller.isInitialized (ExeInstaller.run formatDate es s)).
Proof.
  revert s. induction es as [|e es IH]; intros s Hp Hinv; [done|].
  simpl. apply IH; [by apply ExeInstaller_step_presenter|].
  destruct Hinv as [Hle H0].
  assert (e = ExeInstaller.EInit ∨ e ≠ ExeInstaller.EInit) as [->|Hi]
    by (by destruct e; [left|right..]).
  - simpl. unfold ExeInstaller.init.
    destruct (ExeInstaller.isInitialized s) eqn:E; [by rewrite E|].
    simpl. rewrite H0 by done. by split.
  - by destruct (ExeInstaller_step_controls formatDate e s Hp Hi) as [-> ->].
Qed.

(** C5, amended. In both scripts [init()] on an initialised instance
    changes nothing, so [init()] twice is [init()] once; and on a page where
    [destroy()] does not run, whatever else happens, at most one wrapper is
    ever installed around [window.fetch] (the GUI installer's script has no
    [destroy()]). *)
Theorem init_idempotent_single_wrapper :
  (∀ s, Installer.isInitialized s = true → Installer.init s = s) ∧
  (∀ s, Installer.init (Installer.init s) = Installer.init s) ∧
  (∀ es href v,
     Installer.EDestroy ∉ es →
     (Installer.fetchWrappers
        (Installer.run formatDate es (Installer.new href v)) ≤ 1)%nat) ∧
  (∀ s, ExeInstaller.isInitialized s = true → ExeInstaller.init s = s) ∧
  (∀ s, ExeInstaller.init (ExeInstaller.init s) = ExeInstaller.init s) ∧
  (∀ es href,
     (ExeInstaller.fetchWrappers
        (ExeInstaller.run formatDate es (ExeInstaller.new href)) ≤ 1)%nat).
Proof.
  repeat apply conj.
  - intros s H. unfold Installer.init. by rewrite H.
  - intros s. unfold Installer.init.
    by destruct (Installer.isInitialized s) eqn:E; simpl; rewrite ?E.
  - intros es href v Hd.
    destruct (Installer_run_one_wrapper es (Installer.new href v) Hd)
      as [H _]; [split; simpl; [lia|done]|done].
  - intros s H. unfold ExeInstaller.init. by rewrite H.
  - intros s. unfold ExeInstaller.init.
    by destruct (ExeInstaller.isInitialized s) eqn:E; simpl; rewrite ?E.
  - intros es href.
    destruct (ExeInstaller_run_one_wrapper es (ExeInstaller.new href))
      as [H _]; [by left|split; simpl; [lia|done]|done].
Qed.

End Lifecycle.

(** Witness of [init_idempotent_single_wrapper]: a page that initialises
    twice around a harvest. *)
Lemma init_idempotent_single_wrapper_witness :
  Installer.init (harvestedPage detailsPane) = harvestedPage detailsPane ∧
  (Installer.fetchWrappers
     (Installer.run sampleDate
        [Installer.EInit; Installer.EFetch [VStr voyagerUrl];
         Installer.EAnswer 0 (Resolved sampleResponse); Installer.EDecoded 0;
         Installer.EInit]
        (Installer.new jobsUrl detailsPane)) ≤ 1)%nat.
Proof.
  destruct (init_idempotent_single_wrapper sampleDate) as (Hid & _ & Hone & _).
  split.
  - apply Hid. reflexivity.
  - apply Hone. intros H. by repeat (apply elem_of_cons in H as [H|H]; [done|]);
      apply elem_of_nil in H.
Defined.

(** ** Panels and their timers *)



(** In the GUI installer's script the timer's callback has no such check:
    after the panels of postings ["1"] and ["2"] have been shown in succession,
    the run of the first panel's timer detaches the second panel. *)
Example exe_stale_timer_detaches_next_panel :
  let card jobId :=
    {| attr_job_id := Some jobId; attr_occludable := None;
       card_href := None; card_link := None |} in
  let s := ExeInstaller.showJobInsights (card "2")
             (ExeInstaller.showJobInsights (card "1") harvestedExePage) in
  el_id <$> ExeInstaller.overlays s = [1] ∧
  ExeInstaller.timers s !! 0 = Some (ExeInstaller.TDismiss 0) ∧
  ExeInstaller.overlays (ExeInstaller.step sampleDate (ExeInstaller.EFire 0) s) = [].
Proof. vm_compute. by repeat split. Qed.

Section Panels.

Variable formatDate : value → string.







End Panels.

(** C9. On a page without the layout anchor, [showJobInsightsForId] for a
    posting the cache holds attaches the panel at the stylesheet's position
    and then raises a [TypeError]: the call does not complete, and no
    auto-dismiss timer is armed.  The GUI installer's script, which does
    not look for the anchor, completes on the same page and arms the timer. *)
Theorem show_without_anchor_throws :
  let r := Installer.showJobInsightsForId "1" (harvestedPage noDetailsPane) in
  r.2 = Throw TypeError ∧
  Installer.overlays r.1 =
    [{| el_id := 0;
        el_rows := Installer.rows
                     (Installer.mkJobInfo sampleDate (VStr "1") (sampleJob 3%N "1" 10));
        el_style := None |}] ∧
  Installer.timers r.1 = [] ∧
  ExeInstaller.timers
    (ExeInstaller.showJobInsights
       {| attr_job_id := Some "1"; attr_occludable := None;
          card_href := None; card_link := None |}
       harvestedExePage)
  = [ExeInstaller.TDismiss 0].
Proof. vm_compute. by repeat split. Qed.

(** The same for every state: with the posting in the cache and no layout
    anchor the call raises. *)
Lemma Installer_show_throws jobId info s :
  Installer.jobData s !! KStr jobId = Some info →
  anchor (Installer.view s) = None →
  (Installer.showJobInsightsForId jobId s).2 = Throw TypeError ∧
  Installer.timers (Installer.showJobInsightsForId jobId s).1 = Installer.timers s.
Proof.
  intros Hget Hanchor. destruct (Installer_show_hit jobId info s Hget) as [style ->].
  rewrite Hanchor. simpl. by rewrite app_nil_r.
Qed.

(** A call for the endpoint through the one wrapper of the sample page:
    the native primitive is called once with the arguments of the call, the
    caller receives its outcome, and the postings are in the cache. *)
Example fetch_on_target_delegates_once :
  let r := Installer.callFetch sampleDate loggingFetch [VStr voyagerUrl]
             ([], Installer.init (Installer.new jobsUrl detailsPane)) in
  r.1 = Resolved sampleResponse ∧
  r.2.1 = [[VStr voyagerUrl]] ∧
  Installer.views <$> Installer.jobData r.2.2 !! KStr "2" = Some (VNum 20).
Proof. vm_compute. by repeat split. Qed.

(** ** Witnesses *)

(** Witness of [fetch_wrapper_transparent]: a call for the feed, which is
    not the endpoint, through one wrapper. *)
Lemma fetch_wrapper_transparent_witness :
  Installer.wrapper 0 (Installer.windowFetch loggingFetch 0)
    [VStr "https://www.linkedin.com/feed/"] ([], harvestedPage detailsPane)
  = Installer.windowFetch loggingFetch 0
      [VStr "https://www.linkedin.com/feed/"] ([], harvestedPage detailsPane) ∧
  ExeInstaller.wrapper 0 (ExeInstaller.windowFetch loggingFetch 0)
    [VStr "https://www.linkedin.com/feed/"] ([], harvestedExePage)
  = ExeInstaller.windowFetch loggingFetch 0
      [VStr "https://www.linkedin.com/feed/"] ([], harvestedExePage).
Proof.
  destruct (fetch_wrapper_transparent sampleDate) as (_ & _ & _ & _ & HI & HE).
  split.
  - apply HI. intros url [= <-]. reflexivity.
  - apply HE. intros url [= <-]. reflexivity.
Defined.


(** Witness of [unrecognized_payload_ignored]: an error object, harvested
    and returned by the endpoint through the wrapper of the sample page. *)
Lemma unrecognized_payload_ignored_witness :
  Installer.processJobData sampleDate (VObj 1%N [("status", VNum 404)])
    (harvestedPage detailsPane) = harvestedPage detailsPane ∧
  ExeInstaller.processJobData sampleDate (VObj 1%N [("status", VNum 404)])
    harvestedExePage = harvestedExePage ∧
  Installer.callFetch sampleDate
    (λ _ (w : unit), (Resolved (responseOf (VObj 1%N [("status", VNum 404)])), w))
    [VStr voyagerUrl] ((), harvestedPage detailsPane)
  = (Resolved (responseOf (VObj 1%N [("status", VNum 404)])),
     ((), harvestedPage detailsPane)).
Proof.
  destruct (unrecognized_payload_ignored sampleDate) as (Hdata & Hcall & _).
  destruct (Hdata (VObj 1%N [("status", VNum 404)]) eq_refl) as (HI & HE & _).
  repeat apply conj; [apply HI|apply HE|].
  apply (Hcall unit
           (λ _ w, (Resolved (responseOf (VObj 1%N [("status", VNum 404)])), w))).
  - reflexivity.
  - intros k _. by exists (VObj 1%N [("status", VNum 404)]).
Defined.




(** * Further properties of the scripts *)

(** ** What a harvest does to the cache *)

Section HarvestShape.

Variable formatDate : value → string.

Lemma forEach_app {S : Type} (f : value → S → S * result unit) xs ys s :
  forEach f (xs ++ ys) s =
  match forEach f xs s with
  | (s', Ok _) => forEach f ys s'
  | (s', Throw e) => (s', Throw e)
  end.
Proof.
  revert s. induction xs as [|x xs IH]; intros s; simpl; [done|].
  destruct (f x s) as [s' [[]|e]]; [apply IH|done].
Qed.

(** A loop whose callback lays records over the cache lays records over
    the cache, the same ones whatever the cache holds. *)
Lemma forEach_overlay {V : Type}
    (f : value → gmap key V → gmap key V * result unit) :
  (∀ job, ∃ A r, ∀ m, f job m = (A ∪ m, r)) →
  ∀ jobs, ∃ A r, ∀ m, forEach f jobs m = (A ∪ m, r).
Proof.
  intros Hf jobs. induction jobs as [|job jobs (A2 & r2 & IH)].
  - exists ∅, (Ok ()). intros m. simpl. by rewrite (left_id_L ∅ (∪)).
  - destruct (Hf job) as (A1 & r1 & H1). destruct r1 as [[]|e].
    + exists (A2 ∪ A1), r2. intros m. simpl.
      by rewrite H1, IH, (assoc_L (∪)).
    + exists A1, (Throw e). intros m. simpl. by rewrite H1.
Qed.

Lemma Installer_storeJob_overlay job :
  ∃ A r, ∀ m, Installer.storeJob formatDate job m = (A ∪ m, r).
Proof.
  unfold Installer.storeJob.
  destruct (get job "jobPostingId") as [posting|e].
  2: { exists ∅, (Throw e). intros m. by rewrite (left_id_L ∅ (∪)). }
  destruct (truthy (or_else posting (get_opt job "entityUrn"))).
  2: { exists ∅, (Ok ()). intros m. by rewrite (left_id_L ∅ (∪)). }
  destruct (if truthy posting then Ok posting
            else Installer.extractJobId_of (get_opt job "entityUrn"))
    as [jobId|e].
  2: { exists ∅, (Throw e). intros m. by rewrite (left_id_L ∅ (∪)). }
  destruct (truthy jobId).
  - exists {[to_key jobId := Installer.mkJobInfo formatDate jobId job]}, (Ok ()).
    intros m. by rewrite insert_union_singleton_l.
  - exists ∅, (Ok ()). intros m. by rewrite (left_id_L ∅ (∪)).
Qed.

Lemma ExeInstaller_storeJob_overlay job :
  ∃ A r, ∀ m, ExeInstaller.storeJob formatDate job m = (A ∪ m, r).
Proof.
  unfold ExeInstaller.storeJob.
  destruct (get job "jobPostingId") as [posting|e].
  2: { exists ∅, (Throw e). intros m. by rewrite (left_id_L ∅ (∪)). }
  destruct (if truthy posting then Ok posting
            else ExeInstaller.extractJobId_of
                   (or_else (get_opt job "entityUrn") (VStr "")))
    as [jobId|e].
  2: { exists ∅, (Throw e). intros m. by rewrite (left_id_L ∅ (∪)). }
  destruct (truthy jobId).
  - exists {[to_key jobId := ExeInstaller.mkJobInfo formatDate jobId job]}, (Ok ()).
    intros m. by rewrite insert_union_singleton_l.
  - exists ∅, (Ok ()). intros m. by rewrite (left_id_L ∅ (∪)).
Qed.

Lemma Installer_try_overlay data :
  ∃ A r, ∀ m, Installer.processJobData_try formatDate data m = (A ∪ m, r).
Proof.
  unfold Installer.processJobData_try.
  destruct (Installer.selectJobs data) as [jobs|e].
  2: { exists ∅, (Throw e). intros m. by rewrite (left_id_L ∅ (∪)). }
  destruct jobs as [| | | | |a jobs|];
    try (exists ∅, (Throw TypeError); intros m; by rewrite (left_id_L ∅ (∪))).
  apply forEach_overlay, Installer_storeJob_overlay.
Qed.

Lemma ExeInstaller_try_overlay data :
  ∃ A r, ∀ m, ExeInstaller.processJobData_try formatDate data m = (A ∪ m, r).
Proof.
  unfold ExeInstaller.processJobData_try.
  destruct (ExeInstaller.selectJobs data) as [jobs|e].
  2: { exists ∅, (Throw e). intros m. by rewrite (left_id_L ∅ (∪)). }
  destruct jobs as [| | | | |a jobs|];
    try (exists ∅, (Throw TypeError); intros m; by rewrite (left_id_L ∅ (∪))).
  apply forEach_overlay, ExeInstaller_storeJob_overlay.
Qed.

(** X1. In both scripts a harvest lays a set of records, fixed by the
    payload alone, over the cache: the cache after [processJobData] is that
    set united with the cache before, the new records taking precedence.
    Hence a harvest removes no identifier, leaves the record of every
    identifier it does not write as it was, and writes the same record for an
    identifier whatever the cache held. *)
Theorem harvest_overlays_cache :
  ∀ data,
    (∃ A, ∀ s, Installer.jobData (Installer.processJobData formatDate data s)
               = A ∪ Installer.jobData s) ∧
    (∃ A, ∀ s, ExeInstaller.jobData (ExeInstaller.processJobData formatDate data s)
               = A ∪ ExeInstaller.jobData s) ∧
    (∀ s k, is_Some (Installer.jobData s !! k) →
       is_Some (Installer.jobData (Installer.processJobData formatDate data s) !! k)) ∧
    (∀ s k, is_Some (ExeInstaller.jobData s !! k) →
       is_Some (ExeInstaller.jobData
                  (ExeInstaller.processJobData formatDate data s) !! k)) ∧
    (∀ s s' k,
       Installer.jobData (Installer.processJobData formatDate data s) !! k
         ≠ Installer.jobData s !! k →
       Installer.jobData (Installer.processJobData formatDate data s') !! k
         = Installer.jobData (Installer.processJobData formatDate data s) !! k) ∧
    (∀ s s' k,
       ExeInstaller.jobData (ExeInstaller.processJobData formatDate data s) !! k
         ≠ ExeInstaller.jobData s !! k →
       ExeInstaller.jobData (ExeInstaller.processJobData formatDate data s') !! k
         = ExeInstaller.jobData (ExeInstaller.processJobData formatDate data s) !! k).
Proof.
  intros data.
  destruct (Installer_try_overlay data) as (AI & rI & HI).
  destruct (ExeInstaller_try_overlay data) as (AE & rE & HE).
  assert (HjI : ∀ s, Installer.jobData (Installer.processJobData formatDate data s)
                     = AI ∪ Installer.jobData s).
  { intros s. unfold Installer.processJobData. simpl. by rewrite HI. }
  assert (HjE : ∀ s, ExeInstaller.jobData (ExeInstaller.processJobData formatDate data s)
                     = AE ∪ ExeInstaller.jobData s).
  { intros s. unfold ExeInstaller.processJobData. simpl. by rewrite HE. }
  repeat apply conj.
  - by exists AI.
  - by exists AE.
  - intros s k [v Hv]. rewrite HjI, lookup_union.
    rewrite Hv. by destruct (AI !! k).
  - intros s k [v Hv]. rewrite HjE, lookup_union.
    rewrite Hv. by destruct (AE !! k).
  - intros s s' k. rewrite !HjI, !lookup_union.
    destruct (AI !! k) as [v|] eqn:E.
    + intros _. by rewrite !union_Some_l.
    + rewrite (left_id_L None (∪)). done.
  - intros s s' k. rewrite !HjE, !lookup_union.
    destruct (AE !! k) as [v|] eqn:E.
    + intros _. by rewrite !union_Some_l.
    + rewrite (left_id_L None (∪)). done.
Qed.

Lemma harvest_twice data :
  (∀ s, Installer.processJobData formatDate data
          (Installer.processJobData formatDate data s)
        = Installer.processJobData formatDate data s) ∧
  (∀ s, ExeInstaller.processJobData formatDate data
          (ExeInstaller.processJobData formatDate data s)
        = ExeInstaller.processJobData formatDate data s).
Proof.
  destruct (Installer_try_overlay data) as (AI & rI & HI).
  destruct (ExeInstaller_try_overlay data) as (AE & rE & HE).
  split; intros s.
  - unfold Installer.processJobData. simpl. rewrite !HI. simpl.
    by rewrite (assoc_L (∪)), (idemp_L (∪)).
  - unfold ExeInstaller.processJobData. simpl. rewrite !HE. simpl.
    by rewrite (assoc_L (∪)), (idemp_L (∪)).
Qed.

Lemma Installer_onDecoded_twice d s :
  Installer.onDecoded formatDate d (Installer.onDecoded formatDate d s)
  = Installer.onDecoded formatDate d s.
Proof. destruct d as [data|]; [apply harvest_twice|done]. Qed.

Lemma ExeInstaller_onDecoded_twice d s :
  ExeInstaller.onDecoded formatDate d (ExeInstaller.onDecoded formatDate d s)
  = ExeInstaller.onDecoded formatDate d s.
Proof. destruct d as [data|]; [apply harvest_twice|done]. Qed.

Lemma foldl_map {A B C} (f : A → B → A) (g : C → B) (a : A) (cs : list C) :
  foldl f a (map g cs) = foldl (λ a c, f a (g c)) a cs.
Proof. revert a. induction cs as [|c cs IH]; intros a; simpl; [done|apply IH]. Qed.

(** Doing the same idempotent thing several times is doing it once. *)
Lemma foldl_idempotent {A C} (f : A → A) (g : A → C → A) (a : A) (cs : list C) :
  (∀ a, f (f a) = f a) → Forall (λ c, ∀ a, g a c = f a) cs → cs ≠ [] →
  foldl g a cs = f a.
Proof.
  intros Hf Hg Hne. destruct Hg as [|c cs Hc Hcs]; [done|]. clear Hne.
  simpl. rewrite Hc. clear Hc c.
  revert a. induction Hcs as [|c cs Hc _ IH]; intros a; simpl; [done|].
  by rewrite Hc, Hf, IH.
Qed.

Lemma clones_on_target endpoint n args url resp :
  head args = Some (VStr url) → includes endpoint url = true →
  resp_ok resp = true →
  clones endpoint n args (Resolved resp) = map (resp_json resp) (seq 0 n).
Proof. intros Ha Hu Hok. unfold clones. rewrite Ha. simpl. by rewrite Hu, Hok. Qed.

(** X2. In both scripts harvesting the same payload twice is harvesting it
    once.  When several wrappers are stacked around [window.fetch], as after
    [init(); destroy(); init()], each of them decodes the response of the
    endpoint for itself, and a call leaves the state that the harvest of
    each of these decodings leaves, in turn; when the harvest of each
    decoding is that of the first one, the call leaves the state that the
    harvest of the first decoding alone leaves. *)
Theorem stacked_wrappers_harvest_once :
  (∀ data s, Installer.processJobData formatDate data
               (Installer.processJobData formatDate data s)
             = Installer.processJobData formatDate data s) ∧
  (∀ data s, ExeInstaller.processJobData formatDate data
               (ExeInstaller.processJobData formatDate data s)
             = ExeInstaller.processJobData formatDate data s) ∧
  (∀ (W : Type) (native : list value → W → outcome * W) args w s url resp,
     head args = Some (VStr url) → includes Installer.endpoint url = true →
     (native args w).1 = Resolved resp → resp_ok resp = true →
     Installer.callFetch formatDate native args (w, s)
     = (Resolved resp,
        ((native args w).2,
         foldl (λ s k, Installer.onDecoded formatDate (resp_json resp k) s) s
           (seq 0 (Installer.fetchWrappers s)))) ∧
     (0 < Installer.fetchWrappers s →
      (∀ k s', k < Installer.fetchWrappers s →
         Installer.onDecoded formatDate (resp_json resp k) s'
         = Installer.onDecoded formatDate (resp_json resp 0) s') →
      Installer.callFetch formatDate native args (w, s)
      = (Resolved resp,
         ((native args w).2,
          Installer.onDecoded formatDate (resp_json resp 0) s)))) ∧
  (∀ (W : Type) (native : list value → W → outcome * W) args w s url resp,
     head args = Some (VStr url) → includes ExeInstaller.endpoint url = true →
     (native args w).1 = Resolved resp → resp_ok resp = true →
     ExeInstaller.callFetch formatDate native args (w, s)
     = (Resolved resp,
        ((native args w).2,
         foldl (λ s k, ExeInstaller.onDecoded formatDate (resp_json resp k) s) s
           (seq 0 (ExeInstaller.fetchWrappers s)))) ∧
     (0 < ExeInstaller.fetchWrappers s →
      (∀ k s', k < ExeInstaller.fetchWrappers s →
         ExeInstaller.onDecoded formatDate (resp_json resp k) s'
         = ExeInstaller.onDecoded formatDate (resp_json resp 0) s') →
      ExeInstaller.callFetch formatDate native args (w, s)
      = (Resolved resp,
         ((native args w).2,
          ExeInstaller.onDecoded formatDate (resp_json resp 0) s)))).
Proof.
  repeat apply conj.
  - intros data. apply harvest_twice.
  - intros data. apply harvest_twice.
  - intros W native args w s url resp Ha Hu Hn Hok.
    rewrite Installer_callFetch_cases, Hn.
    rewrite (clones_on_target _ _ _ url) by done. rewrite foldl_map.
    split; [done|]. intros Hpos Hsame. do 2 f_equal.
    apply (foldl_idempotent
             (Installer.onDecoded formatDate (resp_json resp 0))).
    + intros a. apply Installer_onDecoded_twice.
    + apply Forall_forall. intros k Hk%elem_of_seq a. apply Hsame. lia.
    + destruct (Installer.fetchWrappers s); [lia|done].
  - intros W native args w s url resp Ha Hu Hn Hok.
    rewrite ExeInstaller_callFetch_cases, Hn.
    rewrite (clones_on_target _ _ _ url) by done. rewrite foldl_map.
    split; [done|]. intros Hpos Hsame. do 2 f_equal.
    apply (foldl_idempotent
             (ExeInstaller.onDecoded formatDate (resp_json resp 0))).
    + intros a. apply ExeInstaller_onDecoded_twice.
    + apply Forall_forall. intros k Hk%elem_of_seq a. apply Hsame. lia.
    + destruct (ExeInstaller.fetchWrappers s); [lia|done].
Qed.

(** X3. In both scripts a call of [window.fetch] leaves the state of the
    script as it was when no [init()] has installed a wrapper yet, when the
    first argument is not a string (a [Request] or [URL] object, even for the
    endpoint) or a string without the endpoint signature, when the native
    call rejects, when the response is not [ok], or when its body does not
    decode as JSON. *)
Theorem fetch_without_harvest :
  ∀ (W : Type) (native : list value → W → outcome * W) args w,
    (∀ s,
       Installer.fetchWrappers s = 0 ∨ offTarget Installer.endpoint args ∨
       (∃ reason, (native args w).1 = Rejected reason) ∨
       (∃ resp, (native args w).1 = Resolved resp ∧
                (resp_ok resp = false ∨
                 ∀ k, k < Installer.fetchWrappers s → resp_json resp k = None)) →
       Installer.callFetch formatDate native args (w, s)
       = ((native args w).1, ((native args w).2, s))) ∧
    (∀ s,
       ExeInstaller.fetchWrappers s = 0 ∨ offTarget ExeInstaller.endpoint args ∨
       (∃ reason, (native args w).1 = Rejected reason) ∨
       (∃ resp, (native args w).1 = Resolved resp ∧
                (resp_ok resp = false ∨
                 ∀ k, k < ExeInstaller.fetchWrappers s → resp_json resp k = None)) →
       ExeInstaller.callFetch formatDate native args (w, s)
       = ((native args w).1, ((native args w).2, s))).
Proof.
  intros W native args w. split; intros s H.
  - rewrite Installer_callFetch_cases. do 2 f_equal.
    apply foldl_fixed. unfold clones.
    destruct H as [->|[Hoff|[[reason ->]|(resp & -> & Hresp)]]].
    + by repeat case_match.
    + destruct args as [|[] args]; simpl; try done.
      rewrite (Hoff s0) by done. by case_match.
    + by repeat case_match.
    + destruct (default VUndef (head args)); try done.
      destruct Hresp as [-> | Hnone]; [by rewrite andb_false_r|].
      destruct (_ && _); [|done].
      apply Forall_map, Forall_forall. intros k Hk%elem_of_seq. simpl.
      rewrite Hnone by lia. done.
  - rewrite ExeInstaller_callFetch_cases. do 2 f_equal.
    apply foldl_fixed. unfold clones.
    destruct H as [->|[Hoff|[[reason ->]|(resp & -> & Hresp)]]].
    + by repeat case_match.
    + destruct args as [|[] args]; simpl; try done.
      rewrite (Hoff s0) by done. by case_match.
    + by repeat case_match.
    + destruct (default VUndef (head args)); try done.
      destruct Hresp as [-> | Hnone]; [by rewrite andb_false_r|].
      destruct (_ && _); [|done].
      apply Forall_map, Forall_forall. intros k Hk%elem_of_seq. simpl.
      rewrite Hnone by lia. done.
Qed.

Lemma storeJob_breaks bad :
  breaksHarvest bad →
  (∀ m, Installer.storeJob formatDate bad m = (m, Throw TypeError)) ∧
  (∀ m, ExeInstaller.storeJob formatDate bad m = (m, Throw TypeError)).
Proof.
  intros [->|(a & fs & urn & -> & Hp & Hu & Ht & Hs)]; [done|].
  unfold Installer.storeJob, ExeInstaller.storeJob, or_else. simpl.
  rewrite Hu, Hp. simpl. rewrite Ht.
  split; intros m; destruct urn; try done; by destruct (Hs s).
Qed.

(** X4. In both scripts the harvest stops at the first entry on which its
    callback raises ([null], or an entry without [jobPostingId] whose
    [entityUrn] is not a text): the entries before it are stored as they
    would be without it, the entries after it are not stored, and no error
    leaves [processJobData]. *)
Theorem harvest_stops_at_bad_entry :
  ∀ pre bad post,
    breaksHarvest bad →
    (∀ s, Installer.processJobData formatDate (payloadList (pre ++ bad :: post)) s
          = Installer.processJobData formatDate (payloadList pre) s) ∧
    (∀ s, ExeInstaller.processJobData formatDate
            (payloadList (pre ++ bad :: post)) s
          = ExeInstaller.processJobData formatDate (payloadList pre) s).
Proof.
  intros pre bad post [HI HE]%storeJob_breaks. split; intros s.
  - unfold Installer.processJobData, Installer.processJobData_try. simpl.
    rewrite forEach_app.
    destruct (forEach (Installer.storeJob formatDate) pre (Installer.jobData s))
      as [m [[]|e]]; [|done].
    simpl. by rewrite HI.
  - unfold ExeInstaller.processJobData, ExeInstaller.processJobData_try. simpl.
    rewrite forEach_app.
    destruct (forEach (ExeInstaller.storeJob formatDate) pre
                (ExeInstaller.jobData s)) as [m [[]|e]]; [|done].
    simpl. by rewrite HE.
Qed.



End HarvestShape.

(** ** What the identifier extractor returns *)

Section Extractor.

Implicit Types (r : regex) (s : list ascii).

(** Every capture of a match is a non-empty run of digits of the text. *)
Lemma match_here_captures r s caps :
  match_here r s = Some caps →
  Forall (λ cap, cap ≠ [] ∧ Forall (λ c, isDigit c = true) cap ∧
                 ∃ a b, s = a ++ cap ++ b) caps.
Proof.
  revert s caps. induction r as [|a r IH]; intros s caps.
  - intros [= <-]. constructor.
  - destruct a as [c|cs|].
    + destruct s as [|d s]; simpl; [done|].
      destruct (Ascii.eqb c d); [|done]. intros H%IH.
      eapply Forall_impl; [done|]. intros cap (Hne & Hd & a & b & ->).
      repeat split; try done. by exists (d :: a), b.
    + destruct s as [|d s]; simpl; [done|].
      destruct (accepts cs d); [|done]. intros H%IH.
      eapply Forall_impl; [done|]. intros cap (Hne & Hd & a & b & ->).
      repeat split; try done. by exists (d :: a), b.
    + intros (cap & caps' & rest & -> & Hne & Hd & -> & Hr%IH)%match_here_group.
      constructor.
      * repeat split; try done. by exists [], rest.
      * eapply Forall_impl; [done|]. intros cap' (Hne' & Hd' & a & b & ->).
        repeat split; try done. exists (cap ++ a), b. by rewrite <-(assoc_L (++)).
Qed.

(** A rule with a group captures something wherever it matches. *)
Lemma match_here_has_capture r s caps :
  Digits1 ∈ r → match_here r s = Some caps → caps ≠ [].
Proof.
  revert s caps. induction r as [|a r IH]; intros s caps Hin.
  - by apply elem_of_nil in Hin.
  - destruct a as [c|cs|].
    + apply elem_of_cons in Hin as [|Hin]; [done|].
      destruct s as [|d s]; simpl; [done|].
      destruct (Ascii.eqb c d); [by apply IH|done].
    + apply elem_of_cons in Hin as [|Hin]; [done|].
      destruct s as [|d s]; simpl; [done|].
      destruct (accepts cs d); [by apply IH|done].
    + by intros (cap & caps' & rest & -> & _)%match_here_group.
Qed.

Lemma firstCapture_digits ps url jobId :
  firstCapture ps url = Some jobId →
  isNumber jobId = true ∧ ∃ a b, url = a +:+ jobId +:+ b.
Proof.
  destruct (firstCapture_spec ps url) as [(i & r & caps & _ & Hs & _ & ->)|[_ ->]];
    [|done].
  apply search_Some in Hs as (pre & post & Hurl & Hm%match_here_captures & _).
  destruct Hm as [|cap caps (Hne & Hd & a & b & ->) _]; [done|].
  simpl. intros [= <-]. split.
  - unfold isNumber. rewrite list_ascii_of_string_of_list_ascii.
    apply andb_true_intro. split.
    + by destruct cap.
    + clear -Hd. induction Hd as [|c cap Hc _ IH]; simpl; [done|].
      by rewrite Hc.
  - exists (string_of_list_ascii (pre ++ a)), (string_of_list_ascii b).
    rewrite <-!string_of_list_ascii_app, <-(assoc_L (++)), <-Hurl.
    by rewrite string_of_list_ascii_of_string.
Qed.

Lemma firstCapture_app_Some ps qs url jobId :
  firstCapture ps url = Some jobId → firstCapture (ps ++ qs) url = Some jobId.
Proof.
  induction ps as [|p ps IH]; simpl; [done|].
  destruct (search p (chars url)); [done|apply IH].
Qed.

Lemma firstCapture_app_None ps qs url :
  Forall (λ r, Digits1 ∈ r) ps →
  firstCapture ps url = None →
  firstCapture (ps ++ qs) url = firstCapture qs url.
Proof.
  induction 1 as [|p ps Hp _ IH]; simpl; [done|].
  destruct (search p (chars url)) as [caps|] eqn:Hs; [|apply IH].
  apply search_Some in Hs as (pre & post & _ & Hm & _).
  apply (match_here_has_capture _ _ _ Hp) in Hm. by destruct caps.
Qed.

(** X7. In both scripts an identifier [extractJobId] returns is a
    non-empty text of decimal digits that occurs in the input. *)
Theorem extractJobId_returns_digits_of_input :
  ∀ url jobId,
    (Installer.extractJobId url = Some jobId →
       isNumber jobId = true ∧ ∃ a b, url = a +:+ jobId +:+ b) ∧
    (ExeInstaller.extractJobId url = Some jobId →
       isNumber jobId = true ∧ ∃ a b, url = a +:+ jobId +:+ b).
Proof. intros url jobId. split; apply firstCapture_digits. Qed.

(** X8. The extractor of the zip installer's script extends that of the
    GUI installer's script: where the latter finds an identifier the former
    returns the same one, and where the latter finds none the former returns
    what its fourth rule, the quoted [jobPostingId] field, alone finds. *)
Theorem extractJobId_zip_extends_gui :
  ∀ url,
    (∀ jobId, ExeInstaller.extractJobId url = Some jobId →
              Installer.extractJobId url = Some jobId) ∧
    (ExeInstaller.extractJobId url = None →
       Installer.extractJobId url = firstCapture [rule_field] url).
Proof.
  intros url. split.
  - intros jobId H.
    by apply (firstCapture_app_Some ExeInstaller.patterns [rule_field]).
  - intros H.
    apply (firstCapture_app_None ExeInstaller.patterns [rule_field]); [|done].
    repeat constructor; unfold rule_view, rule_current, rule_posting;
      rewrite elem_of_app; right; set_solver.
Qed.

End Extractor.

(** ** How a click is resolved to an identifier *)

Section Resolution.

Lemma truthy_text x : x ≠ "" → truthy (VStr x) = true.
Proof. intros H. simpl. by destruct x. Qed.

Lemma blank_falsy a : blank a = true → truthy (of_attr a) = false.
Proof. destruct a as [x|]; simpl; [|done]. by intros ->. Qed.

Lemma str_or_blank a b : blank a = true → str_or a b = b.
Proof. destruct a as [x|]; simpl; [|done]. by intros ->. Qed.

(** X9. [showJobInsights] of the zip installer's script resolves the
    identifier of a clicked card from, in this order, its [data-job-id]
    attribute, its [data-occludable-job-id] attribute, its own [href], the
    location of the page and the [href] of its first job-view link; it
    shows the first identifier found and does nothing when there is none. *)
Theorem showJobInsights_precedence :
  ∀ jobCard s,
    (∀ x, attr_job_id jobCard = Some x → x ≠ "" →
       Installer.showJobInsights jobCard s = Installer.showJobInsightsForId x s) ∧
    (blank (attr_job_id jobCard) = true →
       (∀ x, attr_occludable jobCard = Some x → x ≠ "" →
          Installer.showJobInsights jobCard s
          = Installer.showJobInsightsForId x s) ∧
       (blank (attr_occludable jobCard) = true →
          (∀ x, Installer.extractJobId (str_or (card_href jobCard) "") = Some x →
             Installer.showJobInsights jobCard s
             = Installer.showJobInsightsForId x s) ∧
          (Installer.extractJobId (str_or (card_href jobCard) "") = None →
             (∀ x, Installer.extractJobId (Installer.location s) = Some x →
                Installer.showJobInsights jobCard s
                = Installer.showJobInsightsForId x s) ∧
             (Installer.extractJobId (Installer.location s) = None →
                (∀ href x, card_link jobCard = Some href →
                   Installer.extractJobId href = Some x →
                   Installer.showJobInsights jobCard s
                   = Installer.showJobInsightsForId x s) ∧
                (card_link jobCard = None ∨
                 (∃ href, card_link jobCard = Some href ∧
                          Installer.extractJobId href = None) →
                 Installer.showJobInsights jobCard s = (s, Ok ())))))).
Proof.
  intros jobCard s. unfold Installer.showJobInsights, or_else. split.
  { intros x -> Hx. by destruct x. }
  intros ->%blank_falsy. split.
  { intros x -> Hx. by destruct x. }
  intros ->%blank_falsy. split.
  { intros x Hx. pose proof (captured_truthy _ _ _ Hx) as Ht.
    rewrite Hx. by destruct x. }
  intros ->. simpl. split.
  { intros x Hx. pose proof (captured_truthy _ _ _ Hx) as Ht.
    rewrite Hx. by destruct x. }
  intros ->. simpl. split.
  { intros href x -> Hx. pose proof (captured_truthy _ _ _ Hx) as Ht.
    rewrite Hx. by destruct x. }
  intros [->|(href & -> & ->)]; done.
Qed.

Lemma ExeInstaller_remove_location loc s :
  ExeInstaller.removeExistingTooltip (ExeInstaller.set_location loc s)
  = ExeInstaller.set_location loc (ExeInstaller.removeExistingTooltip s).
Proof. unfold ExeInstaller.removeExistingTooltip. simpl. by case_match. Qed.

(** X10. [showJobInsights] of the GUI installer's script resolves the
    identifier from the [data-job-id] attribute of the card, else from the
    [href] of the card when it has one, else from the location of the page:
    it does what it does for a card that bears the resolved identifier as
    its [data-job-id].  The location is not consulted when the card has an
    [href]: a card whose [href] holds no identifier shows nothing, wherever
    the page is. *)
Theorem exe_showJobInsights_resolution :
  ∀ jobCard s,
    (∀ x, attr_job_id jobCard = Some x → x ≠ "" →
       ExeInstaller.showJobInsights jobCard s
       = ExeInstaller.showJobInsights (cardWithId x) s) ∧
    (blank (attr_job_id jobCard) = true →
       (blank (card_href jobCard) = false →
          (∀ x, ExeInstaller.extractJobId (str_or (card_href jobCard) "") = Some x →
             ExeInstaller.showJobInsights jobCard s
             = ExeInstaller.showJobInsights (cardWithId x) s) ∧
          (∀ loc, ExeInstaller.showJobInsights jobCard
                    (ExeInstaller.set_location loc s)
                  = ExeInstaller.set_location loc
                      (ExeInstaller.showJobInsights jobCard s)) ∧
          (ExeInstaller.extractJobId (str_or (card_href jobCard) "") = None →
             ExeInstaller.showJobInsights jobCard s = s)) ∧
       (blank (card_href jobCard) = true →
          (∀ x, ExeInstaller.extractJobId (ExeInstaller.location s) = Some x →
             ExeInstaller.showJobInsights jobCard s
             = ExeInstaller.showJobInsights (cardWithId x) s) ∧
          (ExeInstaller.extractJobId (ExeInstaller.location s) = None →
             ExeInstaller.showJobInsights jobCard s = s))).
Proof.
  intros jobCard s. unfold ExeInstaller.showJobInsights, or_else. split.
  { intros x -> Hx. by destruct x. }
  intros ->%blank_falsy. split.
  - intros Hhref.
    assert (Hstr : ∀ b, str_or (card_href jobCard) b
                        = str_or (card_href jobCard) "").
    { intros b. destruct (card_href jobCard) as [h|]; [|done]. simpl in *.
      by rewrite Hhref. }
    split; [|split].
    + intros x Hx. pose proof (captured_truthy _ _ _ Hx) as Ht.
      rewrite (Hstr (ExeInstaller.location s)), Hx. by destruct x.
    + intros loc. simpl ExeInstaller.location.
      rewrite (Hstr loc), (Hstr (ExeInstaller.location s)).
      destruct (ExeInstaller.extractJobId _) as [x|]; [|done].
      simpl. destruct (negb (String.eqb x "")); [|done]. simpl.
      destruct (ExeInstaller.jobData s !! KStr x); [|done].
      by rewrite ExeInstaller_remove_location.
    + rewrite (Hstr (ExeInstaller.location s)). by intros ->.
  - intros Hhref. rewrite str_or_blank by done. split.
    + intros x Hx. pose proof (captured_truthy _ _ _ Hx) as Ht.
      rewrite Hx. by destruct x.
    + by intros ->.
Qed.

End Resolution.

(** ** What the events leave alone *)

Section Frames.

Variable formatDate : value → string.

(** The fields a run of a timer leaves as they were, in the zip
    installer's script. *)
Lemma Installer_runTimer_frame t s :
  let s' := (Installer.runTimer t s).1 in
  Installer.jobData s' = Installer.jobData s ∧
  Installer.fetchWrappers s' = Installer.fetchWrappers s ∧
  Installer.clickListeners s' = Installer.clickListeners s ∧
  Installer.navObservers s' = Installer.navObservers s ∧
  Installer.observer s' = Installer.observer s ∧
  Installer.isInitialized s' = Installer.isInitialized s.
Proof.
  destruct (Installer_runTimer_cases t s)
    as [->|[[jobId ->]|(tooltip & _ & _ & ->)]]; try done.
  destruct (Installer.jobData s !! KStr jobId) as [info|] eqn:Hget.
  - by destruct (Installer_show_hit _ _ _ Hget) as [style ->].
  - by rewrite Installer_show_miss.
Qed.

Lemma ExeInstaller_runTimer_frame t s :
  let s' := ExeInstaller.runTimer t s in
  ExeInstaller.jobData s' = ExeInstaller.jobData s ∧
  ExeInstaller.fetchWrappers s' = ExeInstaller.fetchWrappers s ∧
  ExeInstaller.clickListeners s' = ExeInstaller.clickListeners s ∧
  ExeInstaller.isInitialized s' = ExeInstaller.isInitialized s.
Proof.
  destruct t as [jobCard|tooltip]; simpl;
    unfold ExeInstaller.showJobInsights, ExeInstaller.removeExistingTooltip;
    by repeat case_match.
Qed.

Lemma Installer_step_cache e s :
  Installer_noHarvest e → e ≠ Installer.EDestroy →
  Installer.jobData (Installer.step formatDate e s) = Installer.jobData s.
Proof.
  intros Hf Hd. destruct e as [| |args|k o|k|[jobCard|]|t|href|v| |i]; try done.
  - simpl. unfold Installer.init. by case_match.
  - simpl. destruct (Installer.calls s !! k) as [[args n]|]; [|done].
    by rewrite Installer_windowFetch_clones.
  - simpl. destruct (Installer.timers s !! i) as [t|]; [|done].
    by destruct (Installer_runTimer_frame t
                   (Installer.set_timers (drop_nth i (Installer.timers s)) s))
      as [-> _].
Qed.

Lemma ExeInstaller_step_cache e s :
  ExeInstaller_noHarvest e →
  ExeInstaller.jobData (ExeInstaller.step formatDate e s) = ExeInstaller.jobData s.
Proof.
  intros Hf. destruct e as [|args|k o|k|[jobCard|]|t|href|i]; try done.
  - simpl. unfold ExeInstaller.init. by case_match.
  - simpl. destruct (ExeInstaller.calls s !! k) as [[args n]|]; [|done].
    by rewrite ExeInstaller_windowFetch_clones.
  - simpl. destruct (ExeInstaller.timers s !! i) as [t|]; [|done].
    by destruct (ExeInstaller_runTimer_frame t
                   (ExeInstaller.set_timers (drop_nth i (ExeInstaller.timers s)) s))
      as [-> _].
Qed.

(** X11. In both scripts the cache is written when a decoding that a
    wrapper has started settles and, in the zip installer's script, emptied
    by [destroy()]; no other event (initialisation, a call of [fetch] or the
    answer of the network, clicks, dismissals, navigation, layout changes,
    the run of any timer) changes it. *)
Theorem cache_written_only_by_harvest :
  (∀ e s, Installer_noHarvest e → e ≠ Installer.EDestroy →
     Installer.jobData (Installer.step formatDate e s) = Installer.jobData s) ∧
  (∀ e s, ExeInstaller_noHarvest e →
     ExeInstaller.jobData (ExeInstaller.step formatDate e s)
     = ExeInstaller.jobData s).
Proof.
  split; [apply Installer_step_cache|apply ExeInstaller_step_cache].
Qed.

Lemma Installer_step_no_panel e s :
  Installer_noHarvest e →
  Installer.jobData s = ∅ ∧ Installer.overlays s = [] →
  Installer.jobData (Installer.step formatDate e s) = ∅ ∧
  Installer.overlays (Installer.step formatDate e s) = [].
Proof.
  intros Hf [Hm Hels].
  destruct e as [| |args|k o|k|[jobCard|]|t|href|v| |i]; try done.
  - simpl. unfold Installer.init. by case_match.
  - unfold Installer.step, Installer.destroy.
    by rewrite Installer_removeExistingTooltip_eq.
  - simpl. destruct (Installer.calls s !! k) as [[args n]|]; [|done].
    by rewrite Installer_windowFetch_clones.
  - simpl. by rewrite Hels.
  - simpl. destruct (Installer.timers s !! i) as [t|]; [|done].
    set (s0 := Installer.set_timers _ s).
    destruct (Installer_runTimer_cases t s0)
      as [->|[[jobId ->]|(tooltip & _ & _ & ->)]]; try done.
    rewrite Installer_show_miss; [done|].
    unfold s0. simpl. by rewrite Hm, lookup_empty.
Qed.

Lemma ExeInstaller_step_no_panel e s :
  ExeInstaller_noHarvest e →
  ExeInstaller.jobData s = ∅ ∧ ExeInstaller.overlays s = [] →
  ExeInstaller.jobData (ExeInstaller.step formatDate e s) = ∅ ∧
  ExeInstaller.overlays (ExeInstaller.step formatDate e s) = [].
Proof.
  intros Hf [Hm Hels].
  destruct e as [|args|k o|k|[jobCard|]|t|href|i]; try done.
  - simpl. unfold ExeInstaller.init. by case_match.
  - simpl. destruct (ExeInstaller.calls s !! k) as [[args n]|]; [|done].
    by rewrite ExeInstaller_windowFetch_clones.
  - simpl. by rewrite Hels.
  - simpl. destruct (ExeInstaller.timers s !! i) as [[jobCard|t]|]; [| |done].
    + simpl. unfold ExeInstaller.showJobInsights. simpl.
      rewrite Hm. by repeat case_match.
    + simpl. unfold ExeInstaller.removeExistingTooltip. simpl.
      case_match; simpl; by rewrite ?Hels.
Qed.

(** Without a call of [fetch] no promise becomes pending. *)
Lemma Installer_step_idle e s :
  Installer_noCall e →
  Installer.calls s = [] ∧ Installer.decoding s = [] →
  Installer.calls (Installer.step formatDate e s) = [] ∧
  Installer.decoding (Installer.step formatDate e s) = [].
Proof.
  intros Hf [Hc Hd].
  destruct e as [| |args|k o|k|[jobCard|]|t|href|v| |i]; try done.
  - simpl. unfold Installer.init. by case_match.
  - unfold Installer.step, Installer.destroy.
    rewrite Installer_removeExistingTooltip_eq. by case_match.
  - simpl. by rewrite Hc.
  - simpl. unfold Installer.decoded. by rewrite Hd.
  - simpl. destruct (Installer.timers s !! i) as [t|]; [|done].
    set (s0 := Installer.set_timers _ s).
    destruct (Installer_runTimer_cases t s0)
      as [->|[[jobId ->]|(tooltip & _ & _ & ->)]]; try done.
    destruct (Installer.jobData s0 !! KStr jobId) as [info|] eqn:Hget.
    + by destruct (Installer_show_hit _ _ _ Hget) as [style ->].
    + by rewrite Installer_show_miss.
Qed.

Lemma ExeInstaller_step_idle e s :
  ExeInstaller_noCall e →
  ExeInstaller.calls s = [] ∧ ExeInstaller.decoding s = [] →
  ExeInstaller.calls (ExeInstaller.step formatDate e s) = [] ∧
  ExeInstaller.decoding (ExeInstaller.step formatDate e s) = [].
Proof.
  intros Hf [Hc Hd].
  destruct e as [|args|k o|k|[jobCard|]|t|href|i]; try done.
  - simpl. unfold ExeInstaller.init. by case_match.
  - simpl. by rewrite Hc.
  - simpl. unfold ExeInstaller.decoded. by rewrite Hd.
  - simpl. destruct (ExeInstaller.timers s !! i) as [[jobCard|t]|]; [| |done].
    + simpl. unfold ExeInstaller.showJobInsights,
        ExeInstaller.removeExistingTooltip.
      by repeat case_match.
    + simpl. unfold ExeInstaller.removeExistingTooltip. by case_match.
Qed.

(** With no promise pending, the settling of a decoding is no event of the
    page. *)
Lemma Installer_run_idle es s :
  Forall Installer_noCall es →
  Installer.calls s = [] ∧ Installer.decoding s = [] →
  Installer.jobData s = ∅ ∧ Installer.overlays s = [] →
  Installer.overlays (Installer.run formatDate es s) = [] ∧
  Installer.jobData (Installer.run formatDate es s) = ∅.
Proof.
  intros Hes. revert s.
  induction Hes as [|e es He _ IH]; intros s Hidle Hs; [by destruct Hs|].
  simpl. apply IH; [by apply Installer_step_idle|].
  destruct e as [| |args|k o|k| | | | | |];
    try (by apply Installer_step_no_panel).
  simpl. unfold Installer.decoded. by rewrite (proj2 Hidle).
Qed.

Lemma ExeInstaller_run_idle es s :
  Forall ExeInstaller_noCall es →
  ExeInstaller.calls s = [] ∧ ExeInstaller.decoding s = [] →
  ExeInstaller.jobData s = ∅ ∧ ExeInstaller.overlays s = [] →
  ExeInstaller.overlays (ExeInstaller.run formatDate es s) = [] ∧
  ExeInstaller.jobData (ExeInstaller.run formatDate es s) = ∅.
Proof.
  intros Hes. revert s.
  induction Hes as [|e es He _ IH]; intros s Hidle Hs; [by destruct Hs|].
  simpl. apply IH; [by apply ExeInstaller_step_idle|].
  destruct e as [|args|k o|k| | | |];
    try (by apply ExeInstaller_step_no_panel).
  simpl. unfold ExeInstaller.decoded. by rewrite (proj2 Hidle).
Qed.

(** X12. Before the first harvest no panel is shown.  On a fresh page, as
    long as the page makes no call of [fetch], and on a page where
    [destroy()] has run, as long as no decoding that a wrapper has started
    settles (so when no call and no decoding was in flight at [destroy()]
    and the page makes no call after it), whatever clicks, navigations,
    dismissals, calls of [init()] and [destroy()] and runs of timers occur,
    no panel is attached and the cache stays empty.  Both scripts. *)
Theorem no_panel_before_harvest :
  (∀ es href v,
     Forall Installer_noCall es ∨ Forall Installer_noHarvest es →
     Installer.overlays (Installer.run formatDate es (Installer.new href v)) = [] ∧
     Installer.jobData (Installer.run formatDate es (Installer.new href v)) = ∅) ∧
  (∀ es s0,
     Forall Installer_noHarvest es ∨
     (Installer.calls s0 = [] ∧ Installer.decoding s0 = [] ∧
      Forall Installer_noCall es) →
     Installer.overlays (Installer.run formatDate es (Installer.destroy s0)) = [] ∧
     Installer.jobData (Installer.run formatDate es (Installer.destroy s0)) = ∅) ∧
  (∀ es href,
     Forall ExeInstaller_noCall es ∨ Forall ExeInstaller_noHarvest es →
     ExeInstaller.overlays
       (ExeInstaller.run formatDate es (ExeInstaller.new href)) = [] ∧
     ExeInstaller.jobData
       (ExeInstaller.run formatDate es (ExeInstaller.new href)) = ∅).
Proof.
  assert (HrunI : ∀ es, Forall Installer_noHarvest es →
    ∀ s, Installer.jobData s = ∅ ∧ Installer.overlays s = [] →
    Installer.overlays (Installer.run formatDate es s) = [] ∧
    Installer.jobData (Installer.run formatDate es s) = ∅).
  { intros es Hes.
    induction Hes as [|e es He _ IH]; intros s Hs; [by destruct Hs|].
    simpl. by apply IH, Installer_step_no_panel. }
  assert (HrunE : ∀ es, Forall ExeInstaller_noHarvest es →
    ∀ s, ExeInstaller.jobData s = ∅ ∧ ExeInstaller.overlays s = [] →
    ExeInstaller.overlays (ExeInstaller.run formatDate es s) = [] ∧
    ExeInstaller.jobData (ExeInstaller.run formatDate es s) = ∅).
  { intros es Hes.
    induction Hes as [|e es He _ IH]; intros s Hs; [by destruct Hs|].
    simpl. by apply IH, ExeInstaller_step_no_panel. }
  repeat apply conj.
  - intros es href v [Hes|Hes].
    + by apply Installer_run_idle.
    + by apply HrunI.
  - intros es s0 H.
    assert (Hs : Installer.jobData (Installer.destroy s0) = ∅ ∧
                 Installer.overlays (Installer.destroy s0) = []).
    { unfold Installer.destroy. by rewrite Installer_removeExistingTooltip_eq. }
    destruct H as [Hes|(Hc & Hd & Hes)].
    + by apply HrunI.
    + apply Installer_run_idle; [done| |done].
      unfold Installer.destroy. rewrite Installer_removeExistingTooltip_eq.
      by case_match.
  - intros es href [Hes|Hes].
    + by apply ExeInstaller_run_idle.
    + by apply HrunE.
Qed.

End Frames.

(** ** Listeners and wrappers *)

Section Listeners.

Variable formatDate : value → string.

Lemma Installer_step_installed e es s d :
  installed s d →
  installed (Installer.step formatDate e s) (d + (destroys (e :: es) - destroys es)).
Proof.
  unfold installed. intros (Hc & Hn & Hi & Hb).
  destruct e as [| |args|k o|k|[jobCard|]|t|href|v| |i]; simpl destroys;
    rewrite ?Nat.sub_diag, ?Nat.add_0_r;
    try (by_network s; simpl; repeat split; try done; by apply Hi).
  - simpl. unfold Installer.init.
    destruct (Installer.isInitialized s) eqn:E.
    + rewrite E. repeat split; try done; by apply Hi.
    + repeat split; simpl; try lia.
  - replace (S (destroys es) - destroys es) with 1 by lia.
    unfold Installer.step, Installer.destroy.
    rewrite Installer_removeExistingTooltip_eq.
    destruct (Installer.observer s); repeat split; simpl; try done;
      destruct (Installer.isInitialized s); simpl in *; lia.
  - simpl. repeat split; try done; by apply Hi.
  - simpl. repeat split; try done; by apply Hi.
  - simpl. repeat split; try done; by apply Hi.
  - simpl. repeat split; try done; by apply Hi.
  - simpl. repeat split; try done; by apply Hi.
  - simpl. rewrite length_map. repeat split; try done; by apply Hi.
  - simpl. destruct (Installer.timers s !! i) as [t|];
      [|repeat split; try done; by apply Hi].
    destruct (Installer_runTimer_frame t
                (Installer.set_timers (drop_nth i (Installer.timers s)) s))
      as (_ & Hw & Hcl & Hnav & Hobs & Hini).
    rewrite Hw, Hcl, Hnav, Hobs, Hini. simpl.
    repeat split; try done; by apply Hi.
Qed.

Lemma Installer_run_installed es s d :
  installed s d → installed (Installer.run formatDate es s) (d + destroys es).
Proof.
  revert s d. induction es as [|e es IH]; intros s d H.
  - simpl. by rewrite Nat.add_0_r.
  - simpl Installer.run.
    apply (Installer_step_installed e es) in H. apply IH in H.
    replace (d + destroys (e :: es))
      with (d + (destroys (e :: es) - destroys es) + destroys es); [done|].
    destruct e; simpl; lia.
Qed.

Lemma ExeInstaller_step_installed e s :
  ExeInstaller.clickListeners s = ExeInstaller.fetchWrappers s ∧
  ExeInstaller.fetchWrappers s = (if ExeInstaller.isInitialized s then 1 else 0) →
  let s' := ExeInstaller.step formatDate e s in
  ExeInstaller.clickListeners s' = ExeInstaller.fetchWrappers s' ∧
  ExeInstaller.fetchWrappers s' = (if ExeInstaller.isInitialized s' then 1 else 0).
Proof.
  intros [Hc Hw]. destruct e as [|args|k o|k|[jobCard|]|t|href|i]; try done;
    try (by by_exe_network s).
  - simpl. unfold ExeInstaller.init.
    destruct (ExeInstaller.isInitialized s) eqn:E; [by rewrite E|].
    simpl. lia.
  - simpl. destruct (ExeInstaller.timers s !! i) as [t|]; [|done].
    destruct (ExeInstaller_runTimer_frame t
                (ExeInstaller.set_timers (drop_nth i (ExeInstaller.timers s)) s))
      as (_ & Hw' & Hcl & Hini).
    by rewrite Hw', Hcl, Hini.
Qed.

Lemma ExeInstaller_run_installed es s :
  ExeInstaller.clickListeners s = ExeInstaller.fetchWrappers s ∧
  ExeInstaller.fetchWrappers s = (if ExeInstaller.isInitialized s then 1 else 0) →
  let s' := ExeInstaller.run formatDate es s in
  ExeInstaller.clickListeners s' = ExeInstaller.fetchWrappers s' ∧
  ExeInstaller.fetchWrappers s' = (if ExeInstaller.isInitialized s' then 1 else 0).
Proof.
  revert s. induction es as [|e es IH]; intros s Hs; [done|].
  simpl. by apply IH, ExeInstaller_step_installed.
Qed.

(** X13. The wrapper, the click listener and the navigation observer are
    installed together and never removed: in every state the zip
    installer's script reaches there are as many click listeners and as many
    navigation observers as wrappers around [window.fetch], at most one more
    than there were calls of [destroy()], and an initialised instance has
    at least one of each and its page-change observer connected.  In the
    GUI installer's script there is one wrapper and one click listener
    exactly when the instance is initialised, and none otherwise. *)
Theorem listeners_follow_wrappers :
  (∀ es href v,
     let s := Installer.run formatDate es (Installer.new href v) in
     Installer.clickListeners s = Installer.fetchWrappers s ∧
     length (Installer.navObservers s) = Installer.fetchWrappers s ∧
     (Installer.fetchWrappers s ≤ 1 + destroys es)%nat ∧
     (Installer.isInitialized s = true →
        Installer.observer s = Some true ∧ (1 ≤ Installer.fetchWrappers s)%nat)) ∧
  (∀ es href,
     let s := ExeInstaller.run formatDate es (ExeInstaller.new href) in
     ExeInstaller.clickListeners s = ExeInstaller.fetchWrappers s ∧
     ExeInstaller.fetchWrappers s = (if ExeInstaller.isInitialized s then 1 else 0)).
Proof.
  split.
  - intros es href v s.
    destruct (Installer_run_installed es (Installer.new href v) 0)
      as (Hc & Hn & Hi & Hb).
    { repeat split; simpl; try done; lia. }
    fold s in Hc, Hn, Hi, Hb. repeat split; try done; try (by apply Hi).
    destruct (Installer.isInitialized s); simpl in Hb; lia.
  - intros es href. by apply ExeInstaller_run_installed.
Qed.

End Listeners.

(** ** Navigation, position and the path from harvest to panel *)

Section Watcher.

Variable formatDate : value → string.

Lemma filter_changed_same (url : string) (navs : list string) :
  filter (λ lastUrl, lastUrl ≠ url) (map (λ _, url) navs) = [].
Proof.
  induction navs as [|n navs IH]; [done|]. simpl.
  rewrite filter_cons. by case_decide.
Qed.

Lemma filter_changed_all (url : string) (navs : list string) :
  Forall (λ lastUrl, lastUrl ≠ url) navs →
  filter (λ lastUrl, lastUrl ≠ url) navs = navs.
Proof.
  induction 1 as [|n navs Hn _ IH]; [done|].
  rewrite filter_cons. case_decide; [by rewrite IH|done].
Qed.

Lemma filter_changed_none (url : string) (navs : list string) :
  Forall (λ lastUrl, lastUrl = url) navs →
  filter (λ lastUrl, lastUrl ≠ url) navs = [] ∧ map (λ _, url) navs = navs.
Proof.
  induction 1 as [|n navs Hn _ [IH1 IH2]]; [done|]. subst n. split.
  - rewrite filter_cons. by case_decide.
  - simpl. by rewrite IH2.
Qed.

(** X14. The navigation observers of the zip installer's script react to a
    change of location once: a notification after the page moved to a
    location that differs from the one each observer saw last schedules one
    show of that location per observer, and a notification with the location
    unchanged, such as a second notification after the move, changes
    nothing. *)
Theorem navigation_noticed_once :
  (∀ s href,
     Forall (λ lastUrl, lastUrl ≠ href) (Installer.navObservers s) →
     let s' := Installer.step formatDate Installer.EMutation
                 (Installer.step formatDate (Installer.ENavigate href) s) in
     Installer.timers s' =
       Installer.timers s ++
       replicate (length (Installer.navObservers s)) (Installer.TShowUrl href) ∧
     Installer.navObservers s' =
       replicate (length (Installer.navObservers s)) href) ∧
  (∀ s,
     Forall (λ lastUrl, lastUrl = Installer.location s) (Installer.navObservers s) →
     Installer.step formatDate Installer.EMutation s = s) ∧
  (∀ s, Installer.notify (Installer.notify s) = Installer.notify s).
Proof.
  repeat apply conj.
  - intros s href Hall. simpl. unfold Installer.notify. simpl.
    rewrite filter_changed_all by done. split.
    + f_equal. clear Hall. induction (Installer.navObservers s); simpl; [done|].
      by f_equal.
    + clear Hall. induction (Installer.navObservers s); simpl; [done|].
      by f_equal.
  - intros s Hall. simpl. unfold Installer.notify.
    destruct (filter_changed_none _ _ Hall) as [-> ->].
    destruct s. simpl. unfold Installer.set_timers, Installer.set_listeners.
    simpl. by rewrite app_nil_r.
  - intros s. unfold Installer.notify at 1 3. simpl.
    rewrite filter_changed_same. simpl.
    unfold Installer.set_timers, Installer.set_listeners. simpl.
    rewrite app_nil_r. f_equal.
    induction (Installer.navObservers s); simpl; [done|]. by f_equal.
Qed.






(** X17. In the GUI installer's script the callback of an auto-dismiss
    timer does not look at the panel it was armed for: on every page the
    script has run on, the run of any pending auto-dismiss timer detaches the
    panel that is current at that time, so that no panel is attached
    afterwards. *)
Theorem exe_dismiss_timer_detaches_current :
  ∀ es href i t,
    let s := ExeInstaller.run formatDate es (ExeInstaller.new href) in
    ExeInstaller.timers s !! i = Some (ExeInstaller.TDismiss t) →
    let s' := ExeInstaller.step formatDate (ExeInstaller.EFire i) s in
    ExeInstaller.overlays s' = [] ∧ ExeInstaller.currentTooltip s' = None ∧
    length (ExeInstaller.timers s') = pred (length (ExeInstaller.timers s)).
Proof.
  intros es href i t s Ht s'.
  assert (Hinv : single_panel (ExeInstaller.overlays s)
                   (ExeInstaller.currentTooltip s)).
  { apply ExeInstaller_run_presenter. by left. }
  unfold s'. simpl. rewrite Ht. simpl.
  rewrite ExeInstaller_removeExistingTooltip_eq by done. simpl.
  repeat split. unfold drop_nth.
  apply lookup_lt_Some in Ht.
  rewrite length_app, length_take, length_drop. lia.
Qed.


End Watcher.

(** * The further properties on the sample page *)

(** Witness of [harvest_overlays_cache]: the harvest of a posting ["7"] on
    the sample page keeps the record of posting ["1"], and writes for ["7"]
    what it writes on a fresh page. *)
Lemma harvest_overlays_cache_witness :
  is_Some (Installer.jobData
             (Installer.processJobData sampleDate (payload (sampleJob 5%N "7" 30))
                (harvestedPage detailsPane)) !! KStr "1") ∧
  is_Some (ExeInstaller.jobData
             (ExeInstaller.processJobData sampleDate (payload (sampleJob 5%N "7" 30))
                harvestedExePage) !! KStr "1") ∧
  Installer.jobData
    (Installer.processJobData sampleDate (payload (sampleJob 5%N "7" 30))
       (Installer.new jobsUrl detailsPane)) !! KStr "7"
  = Installer.jobData
      (Installer.processJobData sampleDate (payload (sampleJob 5%N "7" 30))
         (harvestedPage detailsPane)) !! KStr "7" ∧
  ExeInstaller.jobData
    (ExeInstaller.processJobData sampleDate (payload (sampleJob 5%N "7" 30))
       (ExeInstaller.new jobsUrl)) !! KStr "7"
  = ExeInstaller.jobData
      (ExeInstaller.processJobData sampleDate (payload (sampleJob 5%N "7" 30))
         harvestedExePage) !! KStr "7".
Proof.
  destruct (harvest_overlays_cache sampleDate (payload (sampleJob 5%N "7" 30)))
    as (_ & _ & Hkeep & Hkeep' & Hsame & Hsame').
  repeat apply conj.
  - apply Hkeep. vm_compute. eexists. reflexivity.
  - apply Hkeep'. vm_compute. eexists. reflexivity.
  - apply Hsame. vm_compute. intros [=].
  - apply Hsame'. vm_compute. intros [=].
Defined.

(** Witness of [stacked_wrappers_harvest_once]: the sample page after
    [init(); destroy(); init()], where two wrappers are stacked around
    [window.fetch]; the identifiers of the sample body are texts. *)
Lemma stacked_wrappers_harvest_once_witness :
  let s := Installer.run sampleDate
             [Installer.EInit; Installer.EDestroy; Installer.EInit]
             (Installer.new jobsUrl detailsPane) in
  Installer.callFetch sampleDate loggingFetch [VStr voyagerUrl] ([], s)
  = (Resolved sampleResponse,
     ((loggingFetch [VStr voyagerUrl] []).2,
      Installer.onDecoded sampleDate (resp_json sampleResponse 0) s)).
Proof.
  intros s.
  destruct (stacked_wrappers_harvest_once sampleDate) as (_ & _ & HI & _).
  destruct (HI (list (list value)) loggingFetch [VStr voyagerUrl] [] s
              voyagerUrl sampleResponse) as [_ Honce]; [reflexivity..|].
  apply Honce.
  - vm_compute. lia.
  - intros k s' _. reflexivity.
Defined.

(** An entry whose [jobPostingId] is an object is stored under the identity
    of that object, and every decoding builds an object of its own: with two
    wrappers stacked a call stores such an entry twice, with one wrapper
    once. *)
Example stacked_wrappers_store_object_id_twice :
  let resp :=
    {| resp_ok := true;
       resp_json := λ k,
         Some (payload (VObj 3%N [("jobPostingId", VObj (N.of_nat k + 10)%N [])]));
       resp_tag := 0 |} in
  let one := Installer.run sampleDate [Installer.EInit]
               (Installer.new jobsUrl detailsPane) in
  let two := Installer.run sampleDate
               [Installer.EInit; Installer.EDestroy; Installer.EInit]
               (Installer.new jobsUrl detailsPane) in
  let after s :=
    (Installer.callFetch sampleDate (λ _ (w : unit), (Resolved resp, w))
       [VStr voyagerUrl] ((), s)).2.2 in
  is_Some (Installer.jobData (after one) !! KRef 10%N) ∧
  Installer.jobData (after one) !! KRef 11%N = None ∧
  is_Some (Installer.jobData (after two) !! KRef 10%N) ∧
  is_Some (Installer.jobData (after two) !! KRef 11%N).
Proof. vm_compute. repeat split; by eexists. Qed.

(** Witness of [fetch_without_harvest]: a call of the endpoint before
    [init()], and a call of another address on the sample page. *)
Lemma fetch_without_harvest_witness :
  Installer.callFetch sampleDate loggingFetch [VStr voyagerUrl]
    ([], Installer.new jobsUrl detailsPane)
  = (Resolved sampleResponse,
     ([[VStr voyagerUrl]], Installer.new jobsUrl detailsPane)) ∧
  ExeInstaller.callFetch sampleDate loggingFetch [VStr jobsUrl]
    ([], harvestedExePage)
  = (Resolved sampleResponse, ([[VStr jobsUrl]], harvestedExePage)).
Proof.
  split.
  - apply (fetch_without_harvest sampleDate (list (list value)) loggingFetch
             [VStr voyagerUrl] []).
    left. reflexivity.
  - apply (fetch_without_harvest sampleDate (list (list value)) loggingFetch
             [VStr jobsUrl] []).
    right. left. intros url [= <-]. reflexivity.
Defined.

(** Witness of [harvest_stops_at_bad_entry]: a [null] between postings
    ["1"] and ["2"]. *)
Lemma harvest_stops_at_bad_entry_witness :
  Installer.processJobData sampleDate
    (payloadList ([sampleJob 3%N "1" 10] ++ VNull :: [sampleJob 4%N "2" 20]))
    (Installer.new jobsUrl detailsPane)
  = Installer.processJobData sampleDate (payloadList [sampleJob 3%N "1" 10])
      (Installer.new jobsUrl detailsPane) ∧
  ExeInstaller.processJobData sampleDate
    (payloadList ([sampleJob 3%N "1" 10] ++ VNull :: [sampleJob 4%N "2" 20]))
    (ExeInstaller.new jobsUrl)
  = ExeInstaller.processJobData sampleDate (payloadList [sampleJob 3%N "1" 10])
      (ExeInstaller.new jobsUrl).
Proof.
  destruct (harvest_stops_at_bad_entry sampleDate
              [sampleJob 3%N "1" 10] VNull [sampleJob 4%N "2" 20]) as [HI HE].
  - left. reflexivity.
  - split; [apply HI | apply HE].
Defined.



(** Witness of [extractJobId_returns_digits_of_input]: a job-view address. *)
Lemma extractJobId_returns_digits_of_input_witness :
  (isNumber "123" = true ∧
   ∃ a b, "https://www.linkedin.com/jobs/view/123/" = a +:+ "123" +:+ b) ∧
  (isNumber "123" = true ∧
   ∃ a b, "https://www.linkedin.com/jobs/view/123/" = a +:+ "123" +:+ b).
Proof.
  destruct (extractJobId_returns_digits_of_input
              "https://www.linkedin.com/jobs/view/123/" "123") as [HI HE].
  split; [apply HI | apply HE]; reflexivity.
Defined.

(** Witness of [extractJobId_zip_extends_gui]: a job-view address, and an
    address without an identifier. *)
Lemma extractJobId_zip_extends_gui_witness :
  Installer.extractJobId "https://www.linkedin.com/jobs/view/123/" = Some "123" ∧
  Installer.extractJobId jobsUrl = firstCapture [rule_field] jobsUrl.
Proof.
  split.
  - apply (extractJobId_zip_extends_gui "https://www.linkedin.com/jobs/view/123/").
    reflexivity.
  - apply (extractJobId_zip_extends_gui jobsUrl). reflexivity.
Defined.

(** Witness of [showJobInsights_precedence]: a card with [data-job-id], a
    card with a job-view link only, and a card with nothing, on the sample
    page. *)
Lemma showJobInsights_precedence_witness :
  Installer.showJobInsights
    {| attr_job_id := Some "1"; attr_occludable := Some "2";
       card_href := Some "https://www.linkedin.com/jobs/view/2";
       card_link := None |} (harvestedPage detailsPane)
  = Installer.showJobInsightsForId "1" (harvestedPage detailsPane) ∧
  Installer.showJobInsights
    {| attr_job_id := None; attr_occludable := Some "";
       card_href := None;
       card_link := Some "https://www.linkedin.com/jobs/view/2" |}
    (harvestedPage detailsPane)
  = Installer.showJobInsightsForId "2" (harvestedPage detailsPane) ∧
  Installer.showJobInsights
    {| attr_job_id := None; attr_occludable := None;
       card_href := None; card_link := None |} (harvestedPage detailsPane)
  = (harvestedPage detailsPane, Ok ()).
Proof.
  repeat apply conj.
  - destruct (showJobInsights_precedence
                {| attr_job_id := Some "1"; attr_occludable := Some "2";
                   card_href := Some "https://www.linkedin.com/jobs/view/2";
                   card_link := None |} (harvestedPage detailsPane))
      as [Hattr _].
    apply Hattr; [reflexivity | intros [=]].
  - destruct (showJobInsights_precedence
                {| attr_job_id := None; attr_occludable := Some "";
                   card_href := None;
                   card_link := Some "https://www.linkedin.com/jobs/view/2" |}
                (harvestedPage detailsPane)) as [_ Hrest].
    destruct Hrest as [_ Hrest]; [reflexivity|].
    destruct Hrest as [_ Hrest]; [reflexivity|].
    destruct Hrest as [_ Hrest]; [reflexivity|].
    destruct Hrest as [Hlink _]; [reflexivity|].
    apply (Hlink "https://www.linkedin.com/jobs/view/2"); reflexivity.
  - destruct (showJobInsights_precedence
                {| attr_job_id := None; attr_occludable := None;
                   card_href := None; card_link := None |}
                (harvestedPage detailsPane)) as [_ Hrest].
    destruct Hrest as [_ Hrest]; [reflexivity|].
    destruct Hrest as [_ Hrest]; [reflexivity|].
    destruct Hrest as [_ Hrest]; [reflexivity|].
    destruct Hrest as [_ Hnone]; [reflexivity|].
    apply Hnone. left. reflexivity.
Defined.

(** Witness of [exe_showJobInsights_resolution]: a card with [data-job-id]
    and an [href], and a card whose [href] holds no identifier on the page
    of posting ["1"]. *)
Lemma exe_showJobInsights_resolution_witness :
  ExeInstaller.showJobInsights
    {| attr_job_id := Some "1"; attr_occludable := None;
       card_href := Some "https://www.linkedin.com/jobs/view/2";
       card_link := None |} harvestedExePage
  = ExeInstaller.showJobInsights (cardWithId "1") harvestedExePage ∧
  ExeInstaller.showJobInsights
    {| attr_job_id := None; attr_occludable := None;
       card_href := Some jobsUrl; card_link := None |}
    (ExeInstaller.set_location "https://www.linkedin.com/jobs/view/1"
       harvestedExePage)
  = ExeInstaller.set_location "https://www.linkedin.com/jobs/view/1"
      harvestedExePage.
Proof.
  split.
  - destruct (exe_showJobInsights_resolution
                {| attr_job_id := Some "1"; attr_occludable := None;
                   card_href := Some "https://www.linkedin.com/jobs/view/2";
                   card_link := None |} harvestedExePage) as [Hattr _].
    apply Hattr; [reflexivity | intros [=]].
  - destruct (exe_showJobInsights_resolution
                {| attr_job_id := None; attr_occludable := None;
                   card_href := Some jobsUrl; card_link := None |}
                (ExeInstaller.set_location "https://www.linkedin.com/jobs/view/1"
                   harvestedExePage)) as [_ Hrest].
    destruct Hrest as [Hhref _]; [reflexivity|].
    destruct Hhref as (_ & _ & Hnone); [reflexivity|].
    apply Hnone. reflexivity.
Defined.

(** Witness of [cache_written_only_by_harvest]: a navigation on the sample
    page of the zip installer's script, a click on that of the GUI
    installer's script. *)
Lemma cache_written_only_by_harvest_witness :
  Installer.jobData
    (Installer.step sampleDate
       (Installer.ENavigate "https://www.linkedin.com/jobs/view/1")
       (harvestedPage detailsPane))
  = Installer.jobData (harvestedPage detailsPane) ∧
  ExeInstaller.jobData
    (ExeInstaller.step sampleDate (ExeInstaller.EClick (Some (cardWithId "1")))
       harvestedExePage)
  = ExeInstaller.jobData harvestedExePage.
Proof.
  destruct (cache_written_only_by_harvest sampleDate) as [HI HE].
  split.
  - apply HI; [exact I | intros [=]].
  - apply HE. exact I.
Defined.

(** Witness of [no_panel_before_harvest]: a click, its timer and a
    navigation on an initialised page that made no call of [fetch]. *)
Lemma no_panel_before_harvest_witness :
  Installer.overlays
    (Installer.run sampleDate
       [Installer.EInit; Installer.EClick (Some (cardWithId "1"));
        Installer.EFire 0;
        Installer.ENavigate "https://www.linkedin.com/jobs/view/1";
        Installer.EMutation; Installer.EFire 0]
       (Installer.new jobsUrl detailsPane)) = [] ∧
  ExeInstaller.overlays
    (ExeInstaller.run sampleDate
       [ExeInstaller.EInit; ExeInstaller.EClick (Some (cardWithId "1"));
        ExeInstaller.EFire 0]
       (ExeInstaller.new jobsUrl)) = [].
Proof.
  destruct (no_panel_before_harvest sampleDate) as (HI & _ & HE).
  split.
  - apply HI. left. repeat constructor.
  - apply HE. left. repeat constructor.
Defined.

(** Witness of [listeners_follow_wrappers]: after [init(); destroy();
    init()] the instance is initialised and its observer connected. *)
Lemma listeners_follow_wrappers_witness :
  Installer.observer
    (Installer.run sampleDate
       [Installer.EInit; Installer.EDestroy; Installer.EInit]
       (Installer.new jobsUrl detailsPane)) = Some true ∧
  (1 ≤ Installer.fetchWrappers
         (Installer.run sampleDate
            [Installer.EInit; Installer.EDestroy; Installer.EInit]
            (Installer.new jobsUrl detailsPane)))%nat.
Proof.
  destruct (listeners_follow_wrappers sampleDate) as [HI _].
  destruct (HI [Installer.EInit; Installer.EDestroy; Installer.EInit]
              jobsUrl detailsPane) as (_ & _ & _ & Hinit).
  apply Hinit. reflexivity.
Defined.

(** Witness of [navigation_noticed_once]: the sample page moves to posting
    ["1"]. *)
Lemma navigation_noticed_once_witness :
  Installer.timers
    (Installer.step sampleDate Installer.EMutation
       (Installer.step sampleDate
          (Installer.ENavigate "https://www.linkedin.com/jobs/view/1")
          (harvestedPage detailsPane)))
  = Installer.timers (harvestedPage detailsPane) ++
    replicate (length (Installer.navObservers (harvestedPage detailsPane)))
      (Installer.TShowUrl "https://www.linkedin.com/jobs/view/1") ∧
  Installer.step sampleDate Installer.EMutation (harvestedPage detailsPane)
  = harvestedPage detailsPane.
Proof.
  destruct (navigation_noticed_once sampleDate) as (Hmove & Hstay & _).
  split.
  - apply Hmove. repeat constructor. intros [=].
  - apply Hstay. repeat constructor.
Defined.



(** Witness of [exe_dismiss_timer_detaches_current]: the timer of the
    panel of posting ["1"] on the sample page. *)
Lemma exe_dismiss_timer_detaches_current_witness :
  ExeInstaller.overlays
    (ExeInstaller.step sampleDate (ExeInstaller.EFire 0)
       (ExeInstaller.run sampleDate
          [ExeInstaller.EInit;
           ExeInstaller.EFetch [VStr voyagerUrl];
           ExeInstaller.EAnswer 0 (Resolved sampleResponse); ExeInstaller.EDecoded 0;
           ExeInstaller.EClick (Some (cardWithId "1")); ExeInstaller.EFire 0]
          (ExeInstaller.new jobsUrl))) = [].
Proof.
  apply (exe_dismiss_timer_detaches_current sampleDate
           [ExeInstaller.EInit;
            ExeInstaller.EFetch [VStr voyagerUrl];
            ExeInstaller.EAnswer 0 (Resolved sampleResponse); ExeInstaller.EDecoded 0;
            ExeInstaller.EClick (Some (cardWithId "1")); ExeInstaller.EFire 0]
           jobsUrl 0 0).
  reflexivity.
Defined.

